(** * maua: neural style transfer and frame-by-frame video upscaling

    A shallow embedding of [maua/style/image.py] ([transfer], its loss
    closure and the optimisation loop) and of
    [maua/super/video/frame_by_frame.py] ([upscale], [main]).

    Both programs are glue around collaborators that live in other modules
    (image loading, parameterizations, perceptors, optimizers, decord's
    VideoReader, the VideoWriter).  The embedding keeps the control flow of
    the two source files as written and records every call made on a
    collaborator in a trace of events, the way a spy object would; Python
    exceptions are an explicit outcome. *)

From stdpp Require Import base option strings list gmap.
From Stdlib Require Import ZArith Lia Ascii QArith.

Local Open Scope Z_scope.

(** A loss weight is a number that may have a fraction, as the command line
    gives it ([type=float]): a rational. *)
Abbreviation Weight := QArith_base.Q.

(** ** Python exceptions and traced computations *)

Module Py.

(** The exceptions the two programs can end with. *)
Inductive exn : Type :=
| ConfigurationError            (* unknown plugin name *)
| InvalidInput                  (* a source that cannot be loaded or decoded *)
| UnboundLocalError (var : string)
| IndexError.

Inductive outcome (A : Type) : Type :=
| Returns (a : A)
| Raises (e : exn).
Arguments Returns {A} a.
Arguments Raises {A} e.

(** A computation is the list of calls it made, oldest first, and how it
    ended.  An exception keeps the calls made before it. *)
Definition M (Ev A : Type) : Type := (list Ev * outcome A)%type.

Definition trace {Ev A} (m : M Ev A) : list Ev := fst m.
Definition result {Ev A} (m : M Ev A) : outcome A := snd m.

Definition emit {Ev} (e : Ev) : M Ev unit := ([e], Returns tt).
Definition raise {Ev A} (e : exn) : M Ev A := ([], Raises e).

Definition bind {Ev A B} (f : A -> M Ev B) (m : M Ev A) : M Ev B :=
  match m with
  | (t, Returns a) => let r := f a in (t ++ trace r, result r)
  | (t, Raises e) => (t, Raises e)
  end.

#[global] Instance M_ret {Ev} : MRet (M Ev) := fun A a => ([], Returns a).
#[global] Instance M_bind {Ev} : MBind (M Ev) := fun A B f m => bind f m.

(** An optional value that must be present: [None] raises [e]. *)
Definition require {Ev A} (e : exn) (o : option A) : M Ev A :=
  match o with
  | Some a => mret a
  | None => raise e
  end.

(** [with enter: body], the context manager's exit running on every way
    out of the body. *)
Definition with_ {Ev A} (enter leave : Ev) (body : M Ev A) : M Ev A :=
  (enter :: trace body ++ [leave], result body).

(** Number of events of a trace that satisfy [p]. *)
Definition count {Ev} (p : Ev -> bool) (t : list Ev) : nat :=
  length (filter (fun e => p e = true) t).

End Py.
Import Py.

(** ** Style transfer: [maua/style/image.py] *)

Module StyleTransfer.

Section Transfer.

(** Values of the collaborators.  [Src] is what the caller may pass for an
    image (tensor, PIL image or path), [Tensor] a loaded image tensor,
    [Emb] the target embeddings of a perceptor, [Loss] a scalar loss
    tensor, [Latent] the trainable state of a parameterization, [OptSt]
    the private state of an optimizer. *)
Context {Src Tensor Emb Loss Latent OptSt Kwargs Lr Device : Type}.

(** *** The plugin interfaces *)

(** Modelled from the spec: the state of a Parameterization, which is
    defined in [maua/parameterizations] and not in the files embedded
    here.  It owns the trainable latent parameters (with their gradient)
    and the exponential-moving-average accumulator. *)
Record pastiche_state : Type := {
  tensor : Latent;
  grad : option Latent;
  average : Latent;
}.

(** Modelled from the spec: the Parameterization capability set, built
    from (height, width, optional seed tensor); [decode] renders a latent
    as an image, [ema_step] gives the new accumulator from the old one and
    the current latent. *)
Record Parameterization : Type := {
  p_new : Z -> Z -> option Tensor -> pastiche_state;
  decode : Latent -> Tensor;
  ema_step : Latent -> Latent -> Latent;
}.

(** [pastiche()], [pastiche.update_ema()], [pastiche.decode_average()] and
    [pastiche.parameters()]. *)
Definition forward (P : Parameterization) (s : pastiche_state) : Tensor :=
  decode P (tensor s).
Definition update_ema (P : Parameterization) (s : pastiche_state) : pastiche_state :=
  {| tensor := tensor s; grad := grad s;
     average := ema_step P (average s) (tensor s) |}.
Definition decode_average (P : Parameterization) (s : pastiche_state) : Tensor :=
  decode P (average s).
Definition parameters (s : pastiche_state) : Latent := tensor s.

(** Modelled from the spec: the Perceptor capability set of
    [maua/perceptors]. *)
Record Perceptor : Type := {
  get_target_embeddings : Tensor -> list Tensor -> Emb;
  get_loss : Tensor -> Emb -> Loss;
}.

(** Modelled from the spec: what one [opt.step(closure)] of an optimizer
    of [maua/optimizers] may do.  It evaluates the closure and goes on
    with the loss, or reads the parameters and their gradient and writes
    new parameters, any number of times, and ends with its new private
    state. *)
Inductive StepProg : Type :=
| StepDone (o : OptSt)
| StepEval (k : Loss -> StepProg)
| StepAccess (upd : Latent -> option Latent -> Latent)
             (k : Latent -> option Latent -> StepProg).

Record Optimizer : Type := {
  opt_state : OptSt;
  opt_step : OptSt -> StepProg;
}.

(** The functions imported by [image.py]; a loader answers [None] for a
    name it does not know. *)
Record Env : Type := {
  load_image : Src -> option Tensor;
  to_device : Device -> Tensor -> Tensor;
  resample : Tensor -> Z -> Tensor;
  match_histogram : Tensor -> list Tensor -> string -> Tensor;
  height : Tensor -> Z;                       (* shape[2] *)
  width : Tensor -> Z;                        (* shape[3] *)
  tv_loss : Tensor -> Loss;
  loss_add : Loss -> Loss -> Loss;            (* loss += x *)
  loss_scale : Weight -> Loss -> Loss;        (* w * x *)
  backward : Loss -> pastiche_state -> Latent;(* gradient left by loss.backward() *)
  load_parameterization : string -> option Parameterization;
  load_perceptor : string -> option (Z -> Z -> Kwargs -> Perceptor);
  load_optimizer : string -> Lr -> Kwargs -> Z -> Latent -> option (Optimizer * Z);
}.

(** The arguments of [transfer].  [tv_weight] is the weight the closure
    compares with 0 and scales a loss by. *)
Record config : Type := {
  content_img : Src;
  style_imgs : list Src;
  init_img : option Src;
  init_type : string;
  match_hist : string;
  size : Z;
  parameterization : string;
  perceptor : string;
  perceptor_kwargs : Kwargs;
  optimizer : string;
  lr : Lr;
  optimizer_kwargs : Kwargs;
  n_iters : Z;
  content_weight : Z;
  style_weight : Z;
  tv_weight : Weight;
  style_scale : Z;
  device : Device;
}.

(** *** Observable calls *)

Inductive event : Type :=
| EvLoadImages
| EvToDevice
| EvResample (sz : Z)
| EvMatchHistogram
| EvLoadParameterization (name : string)
| EvNewPastiche (h w : Z) (seed : option Tensor)
| EvLoadPerceptor (name : string)
| EvNewPerceptor
| EvGetTargetEmbeddings (content : Tensor) (styles : list Tensor)
| EvGcCollect
| EvEmptyCache
| EvPbarOpen (total : Z)
| EvPbarClose
| EvLoadOptimizer (name : string)
| EvStep
| EvZeroGrad
| EvUpdateEma
| EvForward
| EvGetLoss (img : Tensor) (target : Emb)
| EvTvLoss (img : Tensor)
| EvBackward
| EvPbarUpdate
| EvDecodeAverage.

Variable env : Env.

(** *** Lines 70-74: loading and normalising the images *)

(** Modelled from the spec: [load_images] of [maua/ops/tensor.py] loads
    each of its inputs on its own, a list element by element and an absent
    init image as [None]; a source that cannot be loaded fails the call. *)
Definition load_images (c : Src) (ss : list Src) (i : option Src)
  : option (Tensor * list Tensor * option Tensor) :=
  c' ← load_image env c;
  ss' ← mapM (load_image env) ss;
  match i with
  | None => Some (c', ss', None)
  | Some s => i' ← load_image env s; Some (c', ss', Some i')
  end.

Definition emit_each {A} (evs : list event) (l : list A) : M event unit :=
  (flat_map (fun _ => evs) l, Returns tt).

Definition normalise (cfg : config)
  : M event (Tensor * list Tensor * option Tensor) :=
  emit EvLoadImages;;
  '(content, styles, init) ←
    require InvalidInput
      (load_images (content_img cfg) (style_imgs cfg) (init_img cfg));
  emit EvToDevice;; emit (EvResample (size cfg));;
  let content := resample env (to_device env (device cfg) content) (size cfg) in
  emit_each [EvToDevice; EvResample (size cfg * style_scale cfg)] styles;;
  let styles :=
    map (fun im => resample env (to_device env (device cfg) im)
                     (size cfg * style_scale cfg)) styles in
  emit EvMatchHistogram;;
  let content := match_histogram env content styles (match_hist cfg) in
  mret (content, styles, init).

(** *** Lines 76-81: the initial seed

    The local variable [init_tensor] after the if/elif chain: [None] when
    no branch assigned it, [Some seed] otherwise ([seed] itself may be
    Python's [None]). *)
Definition init_tensor (init : option Tensor) (ty : string) (content : Tensor)
  : option (option Tensor) :=
  match init with
  | Some t => Some (Some t)
  | None =>
      if String.eqb ty "content" then Some (Some content)
      else if String.eqb ty "random" then Some None
      else None
  end.

(** *** Lines 100-112: the loss closure *)

Record loop_state : Type := {
  pastiche : pastiche_state;
  pbar_n : nat;
}.

(** [opt.zero_grad()] on the parameters of the pastiche. *)
Definition zero_grad (p : pastiche_state) : pastiche_state :=
  {| tensor := tensor p; grad := None; average := average p |}.

Section Loop.
Variables (P : Parameterization) (Q : Perceptor) (target_embeddings : Emb)
          (tvw : Weight).

(** The candidate image of line 104, decoded after lines 101-102. *)
Definition candidate (st : loop_state) : Tensor :=
  forward P (update_ema P (zero_grad (pastiche st))).

Definition closure (st : loop_state) : M event (Loss * loop_state) :=
  emit EvZeroGrad;;
  let p := zero_grad (pastiche st) in
  emit EvUpdateEma;;
  let p := update_ema P p in
  emit EvForward;;
  let img := forward P p in
  emit (EvGetLoss img target_embeddings);;
  let loss := get_loss Q img target_embeddings in
  loss ← (if Qlt_le_dec 0 tvw
          then emit (EvTvLoss img);;
               mret (loss_add env loss (loss_scale env tvw (tv_loss env img)))
          else mret loss);
  emit EvBackward;;
  let p := {| tensor := tensor p; grad := Some (backward env loss p);
              average := average p |} in
  emit EvPbarUpdate;;
  mret (loss, {| pastiche := p; pbar_n := S (pbar_n st) |}).

(** [opt.step(closure)]: the optimizer's step, its closure calls being
    the closure above on the current state. *)
Fixpoint run_step (prog : StepProg) (st : loop_state)
  : M event (OptSt * loop_state) :=
  match prog with
  | StepDone o => mret (o, st)
  | StepEval k =>
      '(loss, st') ← closure st; run_step (k loss) st'
  | StepAccess upd k =>
      let p := pastiche st in
      let p' := {| tensor := upd (tensor p) (grad p); grad := grad p;
                   average := average p |} in
      run_step (k (tensor p) (grad p)) {| pastiche := p'; pbar_n := pbar_n st |}
  end.

(** Lines 114-115: [for _ in range(niter): opt.step(closure)]. *)
Fixpoint steps (step : OptSt -> StepProg) (n : nat) (o : OptSt) (st : loop_state)
  : M event (OptSt * loop_state) :=
  match n with
  | O => mret (o, st)
  | S n' =>
      emit EvStep;;
      '(o', st') ← run_step (step o) st;
      steps step n' o' st'
  end.
End Loop.

(** *** Lines 96-115: the optimisation under the progress bar

    [torch.enable_grad()] only switches the gradient mode and leaves no
    call on a collaborator; the [tqdm] bar is opened with [total=n_iters]
    and closed on every way out of the block. *)
Definition optimise (cfg : config) (P : Parameterization) (Q : Perceptor)
    (target_embeddings : Emb) (p : pastiche_state) : M event loop_state :=
  with_ (EvPbarOpen (n_iters cfg)) EvPbarClose
    (emit (EvLoadOptimizer (optimizer cfg));;
     '(opt, niter) ←
       require ConfigurationError
         (load_optimizer env (optimizer cfg) (lr cfg) (optimizer_kwargs cfg)
            (n_iters cfg) (parameters p));
     '(_, st) ← steps P Q target_embeddings (tv_weight cfg) (opt_step opt)
                  (Z.to_nat niter) (opt_state opt)
                  {| pastiche := p; pbar_n := O |};
     mret st).

(** *** [transfer], with the state the loop ended in *)
Definition transfer_state (cfg : config) : M event (Parameterization * loop_state) :=
  '(content, styles, init) ← normalise cfg;
  let seed := init_tensor init (init_type cfg) content in
  (* line 83: the callee expression is evaluated before its arguments *)
  emit (EvLoadParameterization (parameterization cfg));;
  P ← require ConfigurationError
        (load_parameterization env (parameterization cfg));
  seed ← require (UnboundLocalError "init_tensor") seed;
  emit (EvNewPastiche (height env content) (width env content) seed);;
  let p := p_new P (height env content) (width env content) seed in
  emit EvToDevice;;
  emit (EvLoadPerceptor (perceptor cfg));;
  mkQ ← require ConfigurationError (load_perceptor env (perceptor cfg));
  emit EvNewPerceptor;;
  let Q := mkQ (content_weight cfg) (style_weight cfg) (perceptor_kwargs cfg) in
  emit EvToDevice;;
  emit (EvGetTargetEmbeddings content styles);;
  let target_embeddings := get_target_embeddings Q content styles in
  emit EvGcCollect;; emit EvEmptyCache;;
  st ← optimise cfg P Q target_embeddings p;
  mret (P, st).

Definition transfer (cfg : config) : M event Tensor :=
  '(P, st) ← transfer_state cfg;
  emit EvDecodeAverage;;
  mret (decode_average P (pastiche st)).

(** *** Runs that return

    The values a call meets on its way when every lookup succeeds: the
    loaded images, the seed, the resolved plugins and the optimizer with
    its effective iteration count. *)
Record run : Type := {
  r_content0 : Tensor;
  r_styles0 : list Tensor;
  r_init : option Tensor;
  r_seed : option Tensor;
  r_P : Parameterization;
  r_mkQ : Z -> Z -> Kwargs -> Perceptor;
  r_opt : Optimizer;
  r_niter : Z;
}.

Section Run.
Variables (cfg : config) (r : run).

Definition r_styles : list Tensor :=
  map (fun im => resample env (to_device env (device cfg) im)
                   (size cfg * style_scale cfg)) (r_styles0 r).
Definition r_content : Tensor :=
  match_histogram env
    (resample env (to_device env (device cfg) (r_content0 r)) (size cfg))
    r_styles (match_hist cfg).
Definition r_pastiche : pastiche_state :=
  p_new (r_P r) (height env r_content) (width env r_content) (r_seed r).
Definition r_Q : Perceptor :=
  r_mkQ r (content_weight cfg) (style_weight cfg) (perceptor_kwargs cfg).
Definition r_target : Emb := get_target_embeddings r_Q r_content r_styles.
Definition r_loop : M event (OptSt * loop_state) :=
  steps (r_P r) r_Q r_target (tv_weight cfg) (opt_step (r_opt r))
    (Z.to_nat (r_niter r)) (opt_state (r_opt r))
    {| pastiche := r_pastiche; pbar_n := O |}.

(** The state the loop ends in. *)
Definition r_final : loop_state :=
  match result r_loop with
  | Returns (_, st) => st
  | Raises _ => {| pastiche := r_pastiche; pbar_n := O |}
  end.

(** A valid configuration: the images load, the seed is bound and the
    three names are known. *)
Definition valid : Prop :=
  load_images (content_img cfg) (style_imgs cfg) (init_img cfg)
    = Some (r_content0 r, r_styles0 r, r_init r) /\
  init_tensor (r_init r) (init_type cfg) r_content = Some (r_seed r) /\
  load_parameterization env (parameterization cfg) = Some (r_P r) /\
  load_perceptor env (perceptor cfg) = Some (r_mkQ r) /\
  load_optimizer env (optimizer cfg) (lr cfg) (optimizer_kwargs cfg)
    (n_iters cfg) (parameters r_pastiche) = Some (r_opt r, r_niter r).

(** The calls of lines 70-74. *)
Definition load_trace : list event :=
  [EvLoadImages; EvToDevice; EvResample (size cfg)]
  ++ flat_map (fun _ => [EvToDevice; EvResample (size cfg * style_scale cfg)])
       (r_styles0 r)
  ++ [EvMatchHistogram].

(** The calls of lines 83-85, up to the moved pastiche. *)
Definition pastiche_trace : list event :=
  [EvLoadParameterization (parameterization cfg);
   EvNewPastiche (height env r_content) (width env r_content) (r_seed r);
   EvToDevice].

(** The calls made before the target embeddings are computed. *)
Definition setup_trace : list event :=
  load_trace ++ pastiche_trace
  ++ [EvLoadPerceptor (perceptor cfg); EvNewPerceptor; EvToDevice].

(** The calls from there to the first optimizer step. *)
Definition freeze_trace : list event :=
  [EvGetTargetEmbeddings r_content r_styles; EvGcCollect; EvEmptyCache;
   EvPbarOpen (n_iters cfg); EvLoadOptimizer (optimizer cfg)].

Definition run_trace : list event :=
  setup_trace ++ freeze_trace ++ trace r_loop ++ [EvPbarClose; EvDecodeAverage].
End Run.

(** *** Predicates on events *)
Definition is_step (e : event) : bool :=
  match e with EvStep => true | _ => false end.
Definition is_update_ema (e : event) : bool :=
  match e with EvUpdateEma => true | _ => false end.
Definition is_pbar_update (e : event) : bool :=
  match e with EvPbarUpdate => true | _ => false end.
Definition is_zero_grad (e : event) : bool :=
  match e with EvZeroGrad => true | _ => false end.
Definition is_tv_loss (e : event) : bool :=
  match e with EvTvLoss _ => true | _ => false end.
Definition is_get_target_embeddings (e : event) : bool :=
  match e with EvGetTargetEmbeddings _ _ => true | _ => false end.
Definition is_get_loss (e : event) : bool :=
  match e with EvGetLoss _ _ => true | _ => false end.

Definition is_load_images (e : event) : bool :=
  match e with EvLoadImages => true | _ => false end.

(** Loading an image and the tensor work of lines 70-74, and building a
    network. *)
Definition is_tensor_work (e : event) : bool :=
  match e with
  | EvLoadImages | EvToDevice | EvResample _ | EvMatchHistogram
  | EvNewPastiche _ _ _ | EvNewPerceptor => true
  | _ => false
  end.

(** The seeds given to a parameterization constructor, in call order. *)
Definition seeds (t : list event) : list (option Tensor) :=
  omap (fun e => match e with EvNewPastiche _ _ s => Some s | _ => None end) t.

(** The targets the losses of a trace were computed against. *)
Definition loss_targets (t : list event) : list Emb :=
  omap (fun e => match e with EvGetLoss _ te => Some te | _ => None end) t.

(** An event of the iteration loop whose losses are against [te]. *)
Definition loop_event (te : Emb) (e : event) : Prop :=
  match e with
  | EvStep | EvZeroGrad | EvUpdateEma | EvForward | EvTvLoss _
  | EvBackward | EvPbarUpdate => True
  | EvGetLoss _ t => t = te
  | _ => False
  end.

(** How many times a step program evaluates the closure, whatever the
    losses it is given. *)
Inductive evaluates : nat -> StepProg -> Prop :=
| evaluates_done o : evaluates O (StepDone o)
| evaluates_eval n k :
    (forall loss, evaluates n (k loss)) -> evaluates (S n) (StepEval k)
| evaluates_access n upd k :
    (forall x g, evaluates n (k x g)) -> evaluates n (StepAccess upd k).

End Transfer.

End StyleTransfer.

(** ** Frame-by-frame video upscaling: [maua/super/video/frame_by_frame.py] *)

Module FrameByFrame.

Section Upscale.

(** [Frame] is a decoded frame (an array of shape (height, width, channels)),
    [Fps] a frame rate, [Tensor] a frame as the upscaling model takes and
    gives it. *)
Context {Frame Fps Tensor Device : Type}.

(** What decord's [VideoReader] gives for a file: [get_avg_fps()] and the
    frames [vr[0]], ..., [vr[len(vr) - 1]]. *)
Record video : Type := {
  avg_fps : Fps;
  frames : list Frame;
}.

(** A path of the disk holds a video or something that does not decode. *)
Inductive file : Type :=
| Video (v : video)
| Other.

(** Modelled from the spec: [upscale_images] of [maua/super/image.py], a
    generator over the generator of frames it is given.  It asks for the
    next input frame ([None] once the input is exhausted), yields an
    upscaled frame, or stops. *)
Inductive Upscaler : Type :=
| UpStop
| UpYield (out : Tensor) (k : Upscaler)
| UpPull (k : option Tensor -> Upscaler).

(** The functions [frame_by_frame.py] takes from elsewhere: pathlib's
    [Path(p).stem], the shape of a frame, the conversion of line 22
    ([torch.from_numpy(..).permute(2, 0, 1).unsqueeze(0).div(255)]), the
    upscaling generator, and the video a [VideoWriter] leaves on disk. *)
Record Env : Type := {
  stem : string -> string;
  shape : Frame -> Z * Z * Z;
  to_tensor : Frame -> Tensor;
  upscale_images : string -> Device -> Upscaler;
  encode : Z * Z -> Fps -> list Tensor -> video;
}.

(** The parsed command line of [argument_parser]. *)
Record arguments : Type := {
  video_files : list string;
  model_name : string;
  device : Device;
  out_dir : string;
}.

Inductive event : Type :=
| EvExists (path : string)
| EvPrint (msg : string)
| EvVideoReader (path : string)
| EvGetAvgFps
| EvReadFrame (i : nat)
| EvWriterOpen (path : string) (output_size : Z * Z) (fps : Fps)
| EvWrite (frame : Tensor)
| EvWriterClose.

Variable env : Env.

(** [f"{out_dir}/{Path(video_file).stem}_{model_name}.mp4"], lines 20 and 32. *)
Definition out_file (out_dir video_file model_name : string) : string :=
  out_dir +:+ "/" +:+ stem env video_file +:+ "_" +:+ model_name +:+ ".mp4".

(** The notice of line 34. *)
Definition skip_notice (video_file out : string) : string :=
  "Skipping " +:+ stem env video_file +:+ ", output " +:+ stem env out
    +:+ " already exists!".

(** [VideoReader(path)]. *)
Definition open_video (fs : gmap string file) (path : string) : option video :=
  match fs !! path with
  | Some (Video v) => Some v
  | _ => None
  end.

(** [os.path.exists(path)]. *)
Definition exists_ (fs : gmap string file) (path : string) : bool :=
  bool_decide (is_Some (fs !! path)).

(** Lines 22-24: the loop over [upscale_images(frames, ..)].  [frames] is a
    generator over [range(len(vr))]: frame [i] is read when the upscaler
    asks for its next input, and each frame it yields is written at once.
    [i] is the index the generator stands at, [written] the frames written
    so far. *)
Fixpoint pump (u : Upscaler) (vr : video) (i : nat) (written : list Tensor)
  : M event (list Tensor) :=
  match u with
  | UpStop => mret written
  | UpYield out k => emit (EvWrite out);; pump k vr i (written ++ [out])
  | UpPull k =>
      match frames vr !! i with
      | Some f => emit (EvReadFrame i);; pump (k (Some (to_tensor env f))) vr (S i) written
      | None => pump (k None) vr i written
      end
  end.

(** Lines 15-26. *)
Definition upscale (video_file model_name : string) (dev : Device)
    (out_dir : string) (fs : gmap string file)
  : M event (video * gmap string file) :=
  emit (EvVideoReader video_file);;
  vr ← require InvalidInput (open_video fs video_file);
  emit EvGetAvgFps;;
  let fps := avg_fps vr in
  emit (EvReadFrame 0);;
  f0 ← require IndexError (frames vr !! O);
  let '(h, w, _) := shape env f0 in
  let out := out_file out_dir video_file model_name in
  written ← with_ (EvWriterOpen out (4 * w, 4 * h) fps) EvWriterClose
              (pump (upscale_images env model_name dev) vr O []);
  let fs := <[out := Video (encode env (4 * w, 4 * h) fps written)]> fs in
  emit (EvVideoReader out);;
  res ← require InvalidInput (open_video fs out);
  mret (res, fs).

(** Lines 29-37: the loop of [main] over the inputs still to do. *)
Fixpoint main_loop (args : arguments) (todo : list string) (fs : gmap string file)
  : M event (gmap string file) :=
  match todo with
  | [] => mret fs
  | video_file :: rest =>
      let out := out_file (out_dir args) video_file (model_name args) in
      emit (EvExists out);;
      if exists_ fs out
      then emit (EvPrint (skip_notice video_file out));; main_loop args rest fs
      else '(_, fs) ← upscale video_file (model_name args) (device args)
                        (out_dir args) fs;
           main_loop args rest fs
  end.

Definition main (args : arguments) (fs : gmap string file)
  : M event (gmap string file) :=
  main_loop args (video_files args) fs.

(** *** Predicates on events *)
Definition is_video_reader (e : event) : bool :=
  match e with EvVideoReader _ => true | _ => false end.
Definition is_read_frame (e : event) : bool :=
  match e with EvReadFrame _ => true | _ => false end.
Definition is_writer_open (e : event) : bool :=
  match e with EvWriterOpen _ _ _ => true | _ => false end.
Definition is_write (e : event) : bool :=
  match e with EvWrite _ => true | _ => false end.

(** The frame indices read, in the order they were read. *)
Definition reads (t : list event) : list nat :=
  omap (fun e => match e with EvReadFrame i => Some i | _ => None end) t.

(** The frames written, in the order they were written. *)
Definition writes (t : list event) : list Tensor :=
  omap (fun e => match e with EvWrite x => Some x | _ => None end) t.

End Upscale.

End FrameByFrame.

(** ** Test doubles

    Small collaborators to run the two programs on: images, embeddings,
    losses and latents are integers. *)

Module Stubs.

Import StyleTransfer.

(** A source is a number; a negative one does not load. *)
Definition load (s : Z) : option Z := if s <? 0 then None else Some s.

Definition fresh (seed : option Z) : pastiche_state (Latent := Z) :=
  {| tensor := default 7 seed; grad := None; average := default 7 seed |}.

(** Decodes a latent as it is. *)
Definition rgb : Parameterization (Tensor := Z) (Latent := Z) :=
  {| p_new := fun _ _ seed => fresh seed;
     decode := fun x => x;
     ema_step := fun a x => (a + x) / 2 |}.

(** Decodes a latent clamped to the range of a pixel. *)
Definition clamped : Parameterization (Tensor := Z) (Latent := Z) :=
  {| p_new := fun _ _ seed => fresh seed;
     decode := fun x => Z.max 0 (Z.min 255 x);
     ema_step := fun a x => (a + x) / 2 |}.

Definition vgg (cw sw : Z) (_ : unit)
  : Perceptor (Tensor := Z) (Emb := Z) (Loss := Z) :=
  {| get_target_embeddings := fun c ss => cw * c + sw * foldr Z.add 0 ss;
     get_loss := fun img te => img - te |}.

Definition descend (x : Z) (g : option Z) : Z := x - default 0 g.

(** One closure evaluation per step. *)
Definition sgd : Optimizer (Loss := Z) (Latent := Z) (OptSt := nat) :=
  {| opt_state := O;
     opt_step := fun o =>
       StepEval (fun _ => StepAccess descend (fun _ _ => StepDone (S o))) |}.

(** Two closure evaluations per step, as a line search would do. *)
Definition lbfgs : Optimizer (Loss := Z) (Latent := Z) (OptSt := nat) :=
  {| opt_state := O;
     opt_step := fun o =>
       StepEval (fun _ => StepAccess descend (fun _ _ =>
       StepEval (fun _ => StepAccess descend (fun _ _ => StepDone (S o))))) |}.

Definition env : Env (Src := Z) (Kwargs := unit) (Lr := unit) (Device := unit) :=
  {| load_image := load;
     to_device := fun _ t => t;
     resample := fun t sz => t + sz;
     match_histogram := fun c ss mode =>
       if String.eqb mode "avg" then c + foldr Z.add 0 ss else c;
     height := fun t => t;
     width := fun t => t;
     tv_loss := fun t => t;
     loss_add := Z.add;
     loss_scale := fun w x => (Qnum w * x) / Z.pos (Qden w);
     backward := fun loss _ => loss;
     load_parameterization := fun name =>
       if String.eqb name "rgb" then Some rgb
       else if String.eqb name "clamped" then Some clamped else None;
     load_perceptor := fun name =>
       if String.eqb name "kbc-vgg19" then Some vgg else None;
     load_optimizer := fun name _ _ n _ =>
       if String.eqb name "SGD" then Some (sgd, n)
       else if String.eqb name "LBFGS" then Some (lbfgs, n / 2) else None |}.

(** The defaults of [transfer] on sources 10 (content) and 3, 4 (styles),
    with three requested iterations. *)
Definition defaults : config :=
  {| content_img := 10; style_imgs := [3; 4]; init_img := None;
     init_type := "content"; match_hist := "avg"; size := 512;
     parameterization := "rgb"; perceptor := "kbc-vgg19";
     perceptor_kwargs := tt; optimizer := "LBFGS"; lr := tt;
     optimizer_kwargs := tt; n_iters := 6; content_weight := 1;
     style_weight := 50; tv_weight := 100%Q; style_scale := 1; device := tt |}.

Definition with_names (p q o : string) (cfg : config)
  : config (Src := Z) (Kwargs := unit) (Lr := unit) (Device := unit) :=
  {| content_img := content_img cfg; style_imgs := style_imgs cfg;
     init_img := init_img cfg; init_type := init_type cfg;
     match_hist := match_hist cfg; size := size cfg;
     parameterization := p; perceptor := q;
     perceptor_kwargs := perceptor_kwargs cfg; optimizer := o; lr := lr cfg;
     optimizer_kwargs := optimizer_kwargs cfg; n_iters := n_iters cfg;
     content_weight := content_weight cfg; style_weight := style_weight cfg;
     tv_weight := tv_weight cfg; style_scale := style_scale cfg;
     device := device cfg |}.

Definition with_init (i : option Z) (ty : string) (cfg : config)
  : config (Src := Z) (Kwargs := unit) (Lr := unit) (Device := unit) :=
  {| content_img := content_img cfg; style_imgs := style_imgs cfg;
     init_img := i; init_type := ty;
     match_hist := match_hist cfg; size := size cfg;
     parameterization := parameterization cfg; perceptor := perceptor cfg;
     perceptor_kwargs := perceptor_kwargs cfg; optimizer := optimizer cfg;
     lr := lr cfg; optimizer_kwargs := optimizer_kwargs cfg;
     n_iters := n_iters cfg;
     content_weight := content_weight cfg; style_weight := style_weight cfg;
     tv_weight := tv_weight cfg; style_scale := style_scale cfg;
     device := device cfg |}.

Definition with_budget (n : Z) (tvw : Weight) (cfg : config)
  : config (Src := Z) (Kwargs := unit) (Lr := unit) (Device := unit) :=
  {| content_img := content_img cfg; style_imgs := style_imgs cfg;
     init_img := init_img cfg; init_type := init_type cfg;
     match_hist := match_hist cfg; size := size cfg;
     parameterization := parameterization cfg; perceptor := perceptor cfg;
     perceptor_kwargs := perceptor_kwargs cfg; optimizer := optimizer cfg;
     lr := lr cfg; optimizer_kwargs := optimizer_kwargs cfg;
     n_iters := n;
     content_weight := content_weight cfg; style_weight := style_weight cfg;
     tv_weight := tvw; style_scale := style_scale cfg;
     device := device cfg |}.

(** What a call on [defaults] meets: the content image ends as 1553 after
    resampling and histogram matching, and the line-search optimizer turns
    the six requested iterations into three steps. *)
Definition run_defaults : run :=
  {| r_content0 := 10; r_styles0 := [3; 4]; r_init := None;
     r_seed := Some 1553; r_P := rgb; r_mkQ := vgg; r_opt := lbfgs;
     r_niter := 3 |}.

(** One plain gradient step on the clamped parameterization, without
    total-variation loss. *)
Definition saturated : config :=
  with_budget 1 0%Q (with_names "clamped" "kbc-vgg19" "SGD" defaults).

Definition run_saturated : run :=
  {| r_content0 := 10; r_styles0 := [3; 4]; r_init := None;
     r_seed := Some 1553; r_P := clamped; r_mkQ := vgg; r_opt := sgd;
     r_niter := 1 |}.

(** [defaults] with a parameterization name no loader knows. *)
Definition unknown_parameterization : config :=
  with_names "bogus" "kbc-vgg19" "LBFGS" defaults.

Definition unassigned : config := with_init None "init_img" defaults.
Definition unassigned_unknown : config :=
  with_init None "init_img" unknown_parameterization.


End Stubs.

Module VideoStubs.

Import FrameByFrame.

(** [Path(p).stem] for a POSIX path: the last component without its last
    suffix. *)
Fixpoint after_slash (cs acc : list ascii) : list ascii :=
  match cs with
  | [] => acc
  | c :: cs =>
      if Ascii.eqb c "/" then after_slash cs [] else after_slash cs (acc ++ [c])
  end.

Fixpoint drop_suffix (rev_name : list ascii) : option (list ascii) :=
  match rev_name with
  | [] => None
  | c :: rest => if Ascii.eqb c "." then Some rest else drop_suffix rest
  end.

Definition posix_stem (p : string) : string :=
  let name := after_slash (String.list_ascii_of_string p) [] in
  match drop_suffix (rev name) with
  | Some (c :: rest) => String.string_of_list_ascii (rev (c :: rest))
  | _ => String.string_of_list_ascii name
  end.

(** An upscaler that takes the frames one at a time and yields each of
    them scaled, for at most [n] frames. *)
Fixpoint one_by_one (n : nat) : Upscaler (Tensor := Z) :=
  match n with
  | O => UpStop
  | S n' =>
      UpPull (fun o =>
        match o with
        | None => UpStop
        | Some x => UpYield (4 * x) (one_by_one n')
        end)
  end.

(** Frames are numbers, of height [f] and width [f + 1]. *)
Definition env : Env (Frame := Z) (Fps := Z) (Tensor := Z) (Device := unit) :=
  {| stem := posix_stem;
     shape := fun f => (f, f + 1, 3);
     to_tensor := fun f => f;
     upscale_images := fun _ _ => one_by_one 100;
     encode := fun _ fps out => {| avg_fps := fps; frames := out |} |}.

Definition clip : video (Frame := Z) (Fps := Z) :=
  {| avg_fps := 25; frames := [5; 6; 7] |}.

(** A disk with one clip, and the same disk once its output is there. *)
Definition disk : gmap string (file (Frame := Z) (Fps := Z)) :=
  {[ "clips/a.mp4" := Video clip ]}.

Definition disk_done : gmap string (file (Frame := Z) (Fps := Z)) :=
  <[ "out/a_esrgan.mp4" := Other ]> disk.

Definition args : arguments (Device := unit) :=
  {| video_files := ["clips/a.mp4"]; model_name := "esrgan"; device := tt;
     out_dir := "out" |}.

End VideoStubs.

(** ** More on [transfer] *)

Module StyleTransferAux.

Import StyleTransfer.

Section Aux.

Context {Src Tensor Emb : Type} {Kwargs Lr Device : Type}.

(** Every source a call is given: the content image, the style images and
    the init image when there is one. *)
Definition sources (cfg : config (Src := Src) (Kwargs := Kwargs) (Lr := Lr)
                             (Device := Device)) : list Src :=
  content_img cfg :: style_imgs cfg ++ option_list (init_img cfg).

Definition is_pbar_open (e : event (Tensor := Tensor) (Emb := Emb)) : bool :=
  match e with EvPbarOpen _ => true | _ => false end.

Definition is_pbar_close (e : event (Tensor := Tensor) (Emb := Emb)) : bool :=
  match e with EvPbarClose => true | _ => false end.

End Aux.

End StyleTransferAux.

(** ** The command line of style transfer: [main] of [maua/style/image.py] *)

Module StyleMain.

Section Main.

(** [Value] is a keyword argument's value, whatever [eval(t)(v)] gives. *)
Context {Tensor Emb Loss Latent OptSt Value Lr Device : Type}.

(** [l[skip::3]]: after [skip] elements, every third one. *)
Fixpoint every_third {A} (skip : nat) (l : list A) : list A :=
  match l with
  | [] => []
  | x :: l' =>
      match skip with
      | O => x :: every_third 2 l'
      | S s => every_third s l'
      end
  end.

(** [zip(a, b, c)], as long as the shortest of the three. *)
Fixpoint zip3 {A B C} (a : list A) (b : list B) (c : list C) : list (A * B * C) :=
  match a, b, c with
  | x :: a', y :: b', z :: c' => (x, y, z) :: zip3 a' b' c'
  | _, _, _ => []
  end.

(** [zip(kw[::3], kw[1::3], kw[2::3])], lines 151 and 159. *)
Definition triples (kw : list string) : list (string * string * string) :=
  zip3 (every_third 0 kw) (every_third 1 kw) (every_third 2 kw).

(** ['_'.join(l)] and the like. *)
Fixpoint join (sep : string) (l : list string) : string :=
  match l with
  | [] => ""
  | [x] => x
  | x :: rest => x +:+ sep +:+ join sep rest
  end.

(** What [main] takes from elsewhere: Python's [eval] of a type name, which
    may raise and otherwise gives a constructor that may raise on a
    literal; pathlib's [Path(p).stem]; and the functions [transfer] uses. *)
Record Env : Type := {
  eval_type : string -> outcome (string -> outcome Value);
  stem : string -> string;
  transfer_env :
    StyleTransfer.Env (Src := string) (Tensor := Tensor) (Emb := Emb)
      (Loss := Loss) (Latent := Latent) (OptSt := OptSt)
      (Kwargs := gmap string Value) (Lr := Lr) (Device := Device);
}.

(** The parsed command line of [argument_parser], lines 125-142. *)
Record arguments : Type := {
  content : string;
  styles : list string;
  init_img : option string;
  init_type : string;
  match_hist : string;
  size : Z;
  parameterization : string;
  perceptor : string;
  perceptor_kwargs : list string;
  optimizer : string;
  lr : Lr;
  optimizer_kwargs : list string;
  n_iters : Z;
  content_weight : Z;
  style_weight : Z;
  tv_weight : Weight;
  style_scale : Z;
  device : Device;
}.

(** The calls of [main]: those of [transfer], and the saving of the image. *)
Inductive event : Type :=
| EvTransfer (e : StyleTransfer.event (Tensor := Tensor) (Emb := Emb))
| EvSave (path : string) (img : Tensor).

Variable env : Env.

(** The dict comprehension [{k: eval(t)(v) for k, t, v in ...}]: the
    entries are made in order, a later one replacing an earlier one of the
    same name, and the first exception ends it. *)
Fixpoint build (ts : list (string * string * string)) (d : gmap string Value)
  : outcome (gmap string Value) :=
  match ts with
  | [] => Returns d
  | (k, t, v) :: rest =>
      match eval_type env t with
      | Raises e => Raises e
      | Returns make =>
          match make v with
          | Raises e => Raises e
          | Returns x => build rest (<[k := x]> d)
          end
      end
  end.

(** Lines 148-154 and 156-162. *)
Definition decode_kwargs (kw : list string) : outcome (gmap string Value) :=
  if (0 <? length kw)%nat then build (triples kw) ∅ else Returns ∅.

(** The keyword arguments of the call of line 164. *)
Definition to_config (args : arguments) (pk ok : gmap string Value)
  : StyleTransfer.config (Src := string) (Kwargs := gmap string Value)
      (Lr := Lr) (Device := Device) :=
  {| StyleTransfer.content_img := content args;
     StyleTransfer.style_imgs := styles args;
     StyleTransfer.init_img := init_img args;
     StyleTransfer.init_type := init_type args;
     StyleTransfer.match_hist := match_hist args;
     StyleTransfer.size := size args;
     StyleTransfer.parameterization := parameterization args;
     StyleTransfer.perceptor := perceptor args;
     StyleTransfer.perceptor_kwargs := pk;
     StyleTransfer.optimizer := optimizer args;
     StyleTransfer.lr := lr args;
     StyleTransfer.optimizer_kwargs := ok;
     StyleTransfer.n_iters := n_iters args;
     StyleTransfer.content_weight := content_weight args;
     StyleTransfer.style_weight := style_weight args;
     StyleTransfer.tv_weight := tv_weight args;
     StyleTransfer.style_scale := style_scale args;
     StyleTransfer.device := device args |}.

(** The file name of line 184. *)
Definition output_path (args : arguments) : string :=
  "output/" +:+ join "_" (map (stem env) (content args :: styles args))
    +:+ ".png".

Definition of_outcome {A} (o : outcome A) : M event A := ([], o).

Definition of_transfer {A} (m : M StyleTransfer.event A) : M event A :=
  (map EvTransfer (trace m), result m).

(** Lines 147-184. *)
Definition main (args : arguments) : M event unit :=
  pk ← of_outcome (decode_kwargs (perceptor_kwargs args));
  ok ← of_outcome (decode_kwargs (optimizer_kwargs args));
  img ← of_transfer (StyleTransfer.transfer (transfer_env env) (to_config args pk ok));
  emit (EvSave (output_path args) img).

(** The flat list a list of triples is written as on the command line. *)
Definition flatten (ts : list (string * string * string)) : list string :=
  flat_map (fun '(k, t, v) => [k; t; v]) ts.

Definition is_save (e : event) : bool :=
  match e with EvSave _ _ => true | _ => false end.

Definition is_transfer (e : event) : bool :=
  match e with EvTransfer _ => true | _ => false end.

End Main.

End StyleMain.

(** ** More on the frame-by-frame upscaler *)

Module FrameByFrameAux.

Import FrameByFrame.

Section Aux.

Context {Frame Fps Tensor Device : Type}.
Variable env : Env (Frame := Frame) (Fps := Fps) (Tensor := Tensor)
                 (Device := Device).

(** What an upscaling generator yields when it is run on a list of input
    frames that is there from the start. *)
Fixpoint yields (u : Upscaler) (inputs : list Tensor) : list Tensor :=
  match u with
  | UpStop => []
  | UpYield out k => out :: yields k inputs
  | UpPull k =>
      match inputs with
      | [] => yields (k None) []
      | x :: rest => yields (k (Some x)) rest
      end
  end.

(** A writer opened on the path [p]. *)
Definition is_writer_open_at (p : string) (e : event (Fps := Fps) (Tensor := Tensor))
  : bool :=
  match e with
  | EvWriterOpen q _ _ => String.eqb p q
  | _ => false
  end.

(** The output path of each input of a command line. *)
Definition outputs (args : arguments (Device := Device)) (todo : list string)
  : list string :=
  map (fun v => out_file env (out_dir args) v (model_name args)) todo.

(** The calls of a run that skips every input. *)
Definition skip_trace (args : arguments (Device := Device)) (todo : list string)
  : list (event (Fps := Fps) (Tensor := Tensor)) :=
  flat_map (fun v =>
    [EvExists (out_file env (out_dir args) v (model_name args));
     EvPrint (skip_notice env v (out_file env (out_dir args) v (model_name args)))])
    todo.

End Aux.

End FrameByFrameAux.

(** ** More test doubles *)

Module MoreStubs.

(** [transfer] asked for no iteration at all. *)
Definition idle : StyleTransfer.config :=
  Stubs.with_budget 0 100%Q Stubs.defaults.

Definition run_idle : StyleTransfer.run :=
  {| StyleTransfer.r_content0 := 10; StyleTransfer.r_styles0 := [3; 4];
     StyleTransfer.r_init := None; StyleTransfer.r_seed := Some 1553;
     StyleTransfer.r_P := Stubs.rgb; StyleTransfer.r_mkQ := Stubs.vgg;
     StyleTransfer.r_opt := Stubs.lbfgs; StyleTransfer.r_niter := 0 |}.

(** The values of keyword arguments. *)
Inductive value : Type :=
| VInt (n : Z)
| VStr (s : string)
| VBool (b : bool)
| VList (items : list string).

(** [int(v)] on an optional sign and decimal digits; anything else is
    refused (Python's ValueError, written InvalidInput here). *)
Fixpoint digits (cs : list ascii) (acc : Z) : option Z :=
  match cs with
  | [] => Some acc
  | c :: cs' =>
      let n := nat_of_ascii c in
      if (48 <=? n)%nat && (n <=? 57)%nat
      then digits cs' (10 * acc + Z.of_nat (n - 48))
      else None
  end.

Definition int_of (v : string) : outcome value :=
  match String.list_ascii_of_string v with
  | [] => Raises InvalidInput
  | c :: cs =>
      if Ascii.eqb c "-" then
        match cs, digits cs 0 with
        | _ :: _, Some n => Returns (VInt (- n))
        | _, _ => Raises InvalidInput
        end
      else
        match digits (c :: cs) 0 with
        | Some n => Returns (VInt n)
        | None => Raises InvalidInput
        end
  end.

(** [eval] of a type name: the builtins [int], [str], [bool] and [list]
    are known; any other name is taken as undefined (Python's NameError,
    written ConfigurationError here). *)
Definition eval_stub (t : string) : outcome (string -> outcome value) :=
  if String.eqb t "int" then Returns int_of
  else if String.eqb t "str" then Returns (fun v => Returns (VStr v))
  else if String.eqb t "bool"
  then Returns (fun v => Returns (VBool (negb (String.eqb v ""))))
  else if String.eqb t "list"
  then Returns (fun v =>
         Returns (VList (map (fun c => String c EmptyString)
                           (String.list_ascii_of_string v))))
  else Raises ConfigurationError.

(** The functions of [Stubs.env] for paths as sources and a dict of
    keyword arguments: a path loads as its length, the empty path does not
    load. *)
Definition transfer_env
  : StyleTransfer.Env (Src := string) (Kwargs := gmap string value)
      (Lr := unit) (Device := unit) :=
  {| StyleTransfer.load_image := fun s =>
       if String.eqb s "" then None else Some (Z.of_nat (String.length s));
     StyleTransfer.to_device := StyleTransfer.to_device Stubs.env;
     StyleTransfer.resample := StyleTransfer.resample Stubs.env;
     StyleTransfer.match_histogram := StyleTransfer.match_histogram Stubs.env;
     StyleTransfer.height := StyleTransfer.height Stubs.env;
     StyleTransfer.width := StyleTransfer.width Stubs.env;
     StyleTransfer.tv_loss := StyleTransfer.tv_loss Stubs.env;
     StyleTransfer.loss_add := StyleTransfer.loss_add Stubs.env;
     StyleTransfer.loss_scale := StyleTransfer.loss_scale Stubs.env;
     StyleTransfer.backward := StyleTransfer.backward Stubs.env;
     StyleTransfer.load_parameterization :=
       StyleTransfer.load_parameterization Stubs.env;
     StyleTransfer.load_perceptor := fun name =>
       if String.eqb name "kbc-vgg19"
       then Some (fun cw sw (_ : gmap string value) => Stubs.vgg cw sw tt)
       else None;
     StyleTransfer.load_optimizer := fun name _ _ n x =>
       StyleTransfer.load_optimizer Stubs.env name tt tt n x |}.

Definition main_env : StyleMain.Env :=
  {| StyleMain.eval_type := eval_stub;
     StyleMain.stem := VideoStubs.posix_stem;
     StyleMain.transfer_env := transfer_env |}.

(** A command line with an input that is not on the disk. *)
Definition args_missing : FrameByFrame.arguments (Device := unit) :=
  {| FrameByFrame.video_files := ["clips/none.mp4"; "clips/a.mp4"];
     FrameByFrame.model_name := "esrgan"; FrameByFrame.device := tt;
     FrameByFrame.out_dir := "out" |}.

(** The disk after the clip was upscaled. *)
Definition upscaled : FrameByFrame.video (Frame := Z) (Fps := Z) :=
  {| FrameByFrame.avg_fps := 25; FrameByFrame.frames := [20; 24; 28] |}.

Definition disk_after : gmap string (FrameByFrame.file (Frame := Z) (Fps := Z)) :=
  <[ "out/a_esrgan.mp4" := FrameByFrame.Video upscaled ]> VideoStubs.disk.

End MoreStubs.

(** * Properties *)

(** ** Traces *)

Module TraceFacts.

Lemma count_app {Ev} (p : Ev -> bool) (t1 t2 : list Ev) :
  count p (t1 ++ t2) = (count p t1 + count p t2)%nat.
Proof. unfold count. now rewrite filter_app, length_app. Qed.

Lemma count_cons {Ev} (p : Ev -> bool) (e : Ev) (t : list Ev) :
  count p (e :: t) = ((if p e then 1 else 0) + count p t)%nat.
Proof.
  unfold count. destruct (p e) eqn:He.
  - rewrite filter_cons_True by exact He. reflexivity.
  - rewrite filter_cons_False by (rewrite He; discriminate). reflexivity.
Qed.

Lemma count_nil {Ev} (p : Ev -> bool) : count p [] = O.
Proof. reflexivity. Qed.

(** No event of a trace satisfies [p] when all of them satisfy a property
    that excludes [p]. *)
Lemma count_absent {Ev} (p : Ev -> bool) (I : Ev -> Prop) (t : list Ev) :
  (forall e, I e -> p e = false) -> Forall I t -> count p t = O.
Proof.
  intros Hex Hall. induction Hall as [|e t He _ IH].
  - reflexivity.
  - rewrite count_cons, (Hex e He), IH. reflexivity.
Qed.

Lemma bind_split {Ev A B} (f : A -> M Ev B) (m : M Ev A) (t : list Ev) (a : A) :
  m = (t, Returns a) ->
  (m ≫= f) = (t ++ trace (f a), result (f a)).
Proof. intros ->. reflexivity. Qed.

Lemma bind_fail {Ev A B} (f : A -> M Ev B) (m : M Ev A) (t : list Ev) (e : exn) :
  m = (t, Raises e) -> (m ≫= f) = (t, Raises e).
Proof. intros ->. reflexivity. Qed.

Lemma surjective_run {Ev A} (m : M Ev A) : m = (trace m, result m).
Proof. destruct m; reflexivity. Qed.

Lemma bind_assoc {Ev A B C} (m : M Ev A) (f : A -> M Ev B) (g : B -> M Ev C) :
  ((m ≫= f) ≫= g) = (m ≫= fun a => f a ≫= g).
Proof.
  destruct m as [t [a|e]]; [|reflexivity].
  cbn. destruct (f a) as [t' [b|e']]; cbn.
  - now rewrite app_assoc.
  - reflexivity.
Qed.

Lemma ret_bind {Ev A B} (a : A) (f : A -> M Ev B) : (mret a ≫= f) = f a.
Proof.
  change ((([] : list Ev) ++ trace (f a), result (f a)) = f a).
  destruct (f a); reflexivity.
Qed.

Lemma emit_bind {Ev B} (e : Ev) (m1 m2 : M Ev B) :
  m1 = m2 -> (emit e ≫= fun _ => m1) = (emit e ≫= fun _ => m2).
Proof. now intros ->. Qed.

End TraceFacts.
Import TraceFacts.

(** Two runs with the same outcome whose traces differ in bracketing only. *)
#[local] Ltac same_run :=
  try reflexivity; f_equal; try reflexivity;
  repeat (cbn [app]; rewrite <- ?app_assoc, ?app_nil_r); reflexivity.

(** ** The iteration loop of [transfer] *)

Module LoopFacts.

Import StyleTransfer.

Section Loop.

Context {Src Tensor Emb Loss Latent OptSt Kwargs Lr Device : Type}.
Variable env : Env (Src := Src) (Tensor := Tensor) (Emb := Emb) (Loss := Loss)
                 (Latent := Latent) (OptSt := OptSt) (Kwargs := Kwargs)
                 (Lr := Lr) (Device := Device).
Variables (P : Parameterization (Tensor := Tensor) (Latent := Latent))
          (Q : Perceptor (Tensor := Tensor) (Emb := Emb) (Loss := Loss))
          (te : Emb) (tvw : Weight).

(** The calls of one closure invocation. *)
Lemma closure_trace (st : loop_state (Latent := Latent)) :
  trace (closure env P Q te tvw st) =
    [EvZeroGrad; EvUpdateEma; EvForward; EvGetLoss (candidate P st) te]
    ++ (if Qlt_le_dec 0 tvw then [EvTvLoss (candidate P st)] else [])
    ++ [EvBackward; EvPbarUpdate].
Proof. unfold closure. destruct (Qlt_le_dec 0 tvw); reflexivity. Qed.

(** A closure invocation returns: it raises nothing of its own. *)
Lemma closure_returns (st : loop_state (Latent := Latent)) :
  exists loss st',
    result (closure env P Q te tvw st) = Returns (loss, st') /\
    pbar_n st' = S (pbar_n st).
Proof.
  unfold closure. destruct (Qlt_le_dec 0 tvw); eexists _, _; split; reflexivity.
Qed.

Lemma closure_loop_events (st : loop_state (Latent := Latent)) :
  Forall (loop_event te) (trace (closure env P Q te tvw st)).
Proof.
  rewrite closure_trace. destruct (Qlt_le_dec 0 tvw); cbn; repeat constructor.
Qed.

Lemma closure_counts (st : loop_state (Latent := Latent)) :
  count is_update_ema (trace (closure env P Q te tvw st)) = 1%nat /\
  count is_pbar_update (trace (closure env P Q te tvw st)) = 1%nat /\
  count is_zero_grad (trace (closure env P Q te tvw st)) = 1%nat /\
  count is_step (trace (closure env P Q te tvw st)) = O.
Proof.
  rewrite closure_trace. destruct (Qlt_le_dec 0 tvw); repeat split; reflexivity.
Qed.

(** One [opt.step(closure)] returns, makes loop events only, and is not
    itself a step. *)
Lemma run_step_returns (prog : StepProg) :
  forall st : loop_state (Latent := Latent),
  exists o st',
    result (run_step env P Q te tvw prog st) = Returns (o, st') /\
    Forall (loop_event te) (trace (run_step env P Q te tvw prog st)) /\
    count is_step (trace (run_step env P Q te tvw prog st)) = O /\
    count is_update_ema (trace (run_step env P Q te tvw prog st))
      = count is_zero_grad (trace (run_step env P Q te tvw prog st)) /\
    count is_pbar_update (trace (run_step env P Q te tvw prog st))
      = count is_zero_grad (trace (run_step env P Q te tvw prog st)).
Proof.
  induction prog as [o|k IH|upd k IH]; intros st.
  - exists o, st. repeat split; constructor.
  - destruct (closure_returns st) as (loss & st1 & Hres & _).
    destruct (IH loss st1) as (o & st' & Hr & Hall & Hs & He & Hp).
    destruct (closure_counts st) as (Ce & Cp & Cz & Cs).
    pose proof (closure_loop_events st) as Hcl.
    cbn [run_step].
    rewrite (bind_split _ _ _ _
               (eq_trans (surjective_run _) (f_equal (pair _) Hres))).
    exists o, st'. cbn [trace result fst snd].
    split; [exact Hr|]. split; [apply Forall_app; split; assumption|].
    rewrite !count_app. lia.
  - cbn [run_step]. apply IH.
Qed.

(** With an optimizer whose step evaluates the closure [n] times, one step
    updates the EMA and the progress bar [n] times. *)
Lemma run_step_evaluates (n : nat) (prog : StepProg) :
  evaluates n prog ->
  forall st : loop_state (Latent := Latent),
    count is_zero_grad (trace (run_step env P Q te tvw prog st)) = n.
Proof.
  induction 1 as [o|n k _ IH|n upd k _ IH]; intros st.
  - reflexivity.
  - destruct (closure_returns st) as (loss & st1 & Hres & _).
    destruct (closure_counts st) as (_ & _ & Cz & _).
    cbn [run_step].
    rewrite (bind_split _ _ _ _
               (eq_trans (surjective_run _) (f_equal (pair _) Hres))).
    cbn [trace fst]. rewrite count_app, Cz, (IH loss st1). reflexivity.
  - cbn [run_step]. apply IH.
Qed.

(** Unfolding of one iteration of [for _ in range(niter)]. *)
Lemma steps_succ (step : OptSt -> StepProg) (n : nat) (o o1 : OptSt)
    (st st1 : loop_state (Latent := Latent)) :
  result (run_step env P Q te tvw (step o) st) = Returns (o1, st1) ->
  steps env P Q te tvw step (S n) o st =
    (EvStep :: trace (run_step env P Q te tvw (step o) st)
       ++ trace (steps env P Q te tvw step n o1 st1),
     result (steps env P Q te tvw step n o1 st1)).
Proof.
  intros H. cbn [steps].
  rewrite (surjective_run (run_step env P Q te tvw (step o) st)), H.
  reflexivity.
Qed.

(** The loop returns after exactly [n] steps, whatever the optimizer does
    in a step, and every closure call updates the EMA and the bar once. *)
Lemma steps_returns (step : OptSt -> StepProg) (n : nat) :
  forall (o : OptSt) (st : loop_state (Latent := Latent)),
  exists o' st',
    result (steps env P Q te tvw step n o st) = Returns (o', st') /\
    Forall (loop_event te) (trace (steps env P Q te tvw step n o st)) /\
    count is_step (trace (steps env P Q te tvw step n o st)) = n /\
    count is_update_ema (trace (steps env P Q te tvw step n o st))
      = count is_zero_grad (trace (steps env P Q te tvw step n o st)) /\
    count is_pbar_update (trace (steps env P Q te tvw step n o st))
      = count is_zero_grad (trace (steps env P Q te tvw step n o st)).
Proof.
  induction n as [|n IH]; intros o st.
  - exists o, st. repeat split; constructor.
  - destruct (run_step_returns (step o) st) as (o1 & st1 & Hr & Hall & Hs & He & Hp).
    destruct (IH o1 st1) as (o' & st' & Hr' & Hall' & Hs' & He' & Hp').
    rewrite (steps_succ step n o o1 st st1 Hr).
    exists o', st'. cbn [trace result fst snd].
    split; [exact Hr'|].
    split; [constructor; [exact I | apply Forall_app; split; assumption]|].
    rewrite !count_cons, !count_app. cbn [is_step is_update_ema is_pbar_update is_zero_grad].
    lia.
Qed.

Lemma steps_evaluates (N : nat) (step : OptSt -> StepProg) (n : nat) :
  (forall o, evaluates N (step o)) ->
  forall (o : OptSt) (st : loop_state (Latent := Latent)),
    count is_zero_grad (trace (steps env P Q te tvw step n o st)) = (N * n)%nat.
Proof.
  intros HN. induction n as [|n IH]; intros o st.
  - cbn. lia.
  - destruct (run_step_returns (step o) st) as (o1 & st1 & Hr & _).
    rewrite (steps_succ step n o o1 st st1 Hr). cbn [trace fst].
    rewrite count_cons, count_app, (run_step_evaluates N _ (HN o) st), (IH o1 st1).
    cbn [is_zero_grad]. lia.
Qed.

(** What one closure invocation does to the state: the EMA accumulator is
    advanced once from the current latent, the latent is left as it is,
    and the progress bar moves by one. *)
Lemma closure_state (st : loop_state (Latent := Latent)) :
  exists loss st',
    result (closure env P Q te tvw st) = Returns (loss, st') /\
    average (pastiche st')
      = ema_step P (average (pastiche st)) (tensor (pastiche st)) /\
    tensor (pastiche st') = tensor (pastiche st) /\
    pbar_n st' = S (pbar_n st).
Proof.
  unfold closure. destruct (Qlt_le_dec 0 tvw); eexists _, _;
    repeat split; reflexivity.
Qed.

(** The progress bar stands at the number of closure invocations. *)
Lemma run_step_pbar (prog : StepProg) :
  forall (st : loop_state (Latent := Latent)) o st',
    result (run_step env P Q te tvw prog st) = Returns (o, st') ->
    pbar_n st'
      = (pbar_n st + count is_zero_grad (trace (run_step env P Q te tvw prog st)))%nat.
Proof.
  induction prog as [o0|k IH|upd k IH]; intros st o st' Hr.
  - cbn in Hr. injection Hr as <- <-. cbn. lia.
  - destruct (closure_state st) as (loss & st1 & Hres & _ & _ & Hbar).
    destruct (closure_counts st) as (_ & _ & Cz & _).
    cbn [run_step] in Hr |- *.
    rewrite (bind_split _ _ _ _
               (eq_trans (surjective_run _) (f_equal (pair _) Hres))) in Hr |- *.
    cbn [trace result fst snd] in Hr |- *.
    rewrite (IH loss st1 o st' Hr), Hbar, count_app, Cz. lia.
  - cbn [run_step] in Hr |- *. rewrite (IH _ _ _ _ _ Hr). reflexivity.
Qed.

Lemma steps_pbar (step : OptSt -> StepProg) (n : nat) :
  forall (o : OptSt) (st : loop_state (Latent := Latent)) o' st',
    result (steps env P Q te tvw step n o st) = Returns (o', st') ->
    pbar_n st'
      = (pbar_n st + count is_zero_grad (trace (steps env P Q te tvw step n o st)))%nat.
Proof.
  induction n as [|n IH]; intros o st o' st' Hr.
  - cbn in Hr. injection Hr as <- <-. cbn. lia.
  - destruct (run_step_returns (step o) st) as (o1 & st1 & Hr1 & _).
    rewrite (steps_succ step n o o1 st st1 Hr1) in Hr |- *.
    cbn [trace result fst snd] in Hr |- *.
    rewrite (IH o1 st1 o' st' Hr), (run_step_pbar _ _ _ _ Hr1).
    rewrite count_cons, count_app. cbn [is_zero_grad]. lia.
Qed.

End Loop.

End LoopFacts.

(** ** [transfer] *)

Module TransferFacts.

Import StyleTransfer LoopFacts.

Section Transfer.

Context {Src Tensor Emb Loss Latent OptSt Kwargs Lr Device : Type}.
Variable env : Env (Src := Src) (Tensor := Tensor) (Emb := Emb) (Loss := Loss)
                 (Latent := Latent) (OptSt := OptSt) (Kwargs := Kwargs)
                 (Lr := Lr) (Device := Device).
Implicit Types (cfg : config (Src := Src) (Kwargs := Kwargs) (Lr := Lr) (Device := Device)).
Implicit Types (r : run (Tensor := Tensor) (Emb := Emb) (Loss := Loss)
                        (Latent := Latent) (OptSt := OptSt) (Kwargs := Kwargs)).

(** The loop of a valid run returns. *)
Lemma r_loop_returns cfg r :
  exists o,
    result (r_loop env cfg r) = Returns (o, r_final env cfg r) /\
    Forall (loop_event (r_target env cfg r)) (trace (r_loop env cfg r)) /\
    count is_step (trace (r_loop env cfg r)) = Z.to_nat (r_niter r) /\
    count is_update_ema (trace (r_loop env cfg r))
      = count is_zero_grad (trace (r_loop env cfg r)) /\
    count is_pbar_update (trace (r_loop env cfg r))
      = count is_zero_grad (trace (r_loop env cfg r)).
Proof.
  unfold r_final, r_loop.
  destruct (steps_returns env (r_P r) (r_Q cfg r) (r_target env cfg r)
              (tv_weight cfg) (opt_step (r_opt r)) (Z.to_nat (r_niter r))
              (opt_state (r_opt r))
              {| pastiche := r_pastiche env cfg r; pbar_n := O |})
    as (o & st & Hr & Hrest).
  exists o. rewrite Hr. split; [reflexivity | exact Hrest].
Qed.

(** What a call does on a valid configuration. *)
Lemma transfer_state_valid cfg r :
  valid env cfg r ->
  transfer_state env cfg =
    (setup_trace env cfg r ++ freeze_trace env cfg r
       ++ trace (r_loop env cfg r) ++ [EvPbarClose],
     Returns (r_P r, r_final env cfg r)).
Proof.
  intros (Himg & Hseed & HP & HQ & Hopt).
  destruct (r_loop_returns cfg r) as (o & Hloop & _).
  unfold transfer_state, normalise, optimise.
  rewrite Himg. cbn -[init_tensor steps Z.mul flat_map].
  fold (r_styles env cfg r). fold (r_content env cfg r).
  rewrite Hseed, HP. cbn -[steps Z.mul flat_map].
  rewrite HQ. cbn -[steps Z.mul flat_map].
  fold (r_Q cfg r). fold (r_target env cfg r). fold (r_pastiche env cfg r).
  rewrite Hopt. cbn -[steps Z.mul flat_map].
  fold (r_loop env cfg r).
  rewrite (surjective_run (r_loop env cfg r)), Hloop.
  cbn -[steps Z.mul flat_map].
  unfold setup_trace, load_trace, pastiche_trace, freeze_trace. same_run.
Qed.

Lemma transfer_valid cfg r :
  valid env cfg r ->
  transfer env cfg =
    (run_trace env cfg r,
     Returns (decode_average (r_P r) (pastiche (r_final env cfg r)))).
Proof.
  intros Hv. unfold transfer. rewrite (transfer_state_valid cfg r Hv).
  cbn. unfold run_trace, setup_trace, load_trace, pastiche_trace, freeze_trace.
  same_run.
Qed.

(** The valid configurations are those on which the call returns. *)
Lemma returns_valid cfg (img : Tensor) :
  result (transfer env cfg) = Returns img -> exists r, valid env cfg r.
Proof.
  unfold transfer, transfer_state, normalise, optimise. intros H.
  destruct (load_images env (content_img cfg) (style_imgs cfg) (init_img cfg))
    as [[[c0 ss0] i0]|] eqn:Himg; [|discriminate].
  cbn -[init_tensor steps Z.mul flat_map] in H.
  destruct (load_parameterization env (parameterization cfg)) as [P|] eqn:HP;
    [|discriminate].
  cbn -[init_tensor steps Z.mul flat_map] in H.
  match type of H with
  | context [init_tensor i0 (init_type cfg) ?c] =>
      destruct (init_tensor i0 (init_type cfg) c) as [sd|] eqn:Hseed;
        [|discriminate]
  end.
  cbn -[steps Z.mul flat_map] in H.
  destruct (load_perceptor env (perceptor cfg)) as [mkQ|] eqn:HQ; [|discriminate].
  cbn -[steps Z.mul flat_map] in H.
  match type of H with
  | context [load_optimizer env (optimizer cfg) (lr cfg) (optimizer_kwargs cfg)
               (n_iters cfg) ?x] =>
      destruct (load_optimizer env (optimizer cfg) (lr cfg)
                  (optimizer_kwargs cfg) (n_iters cfg) x)
        as [[opt niter]|] eqn:Hopt; [|discriminate]
  end.
  exists {| r_content0 := c0; r_styles0 := ss0; r_init := i0; r_seed := sd;
            r_P := P; r_mkQ := mkQ; r_opt := opt; r_niter := niter |}.
  repeat split; assumption.
Qed.

(** *** Calls that fail, stage by stage *)

Lemma transfer_invalid_input cfg :
  load_images env (content_img cfg) (style_imgs cfg) (init_img cfg) = None ->
  transfer env cfg = ([EvLoadImages], Raises InvalidInput).
Proof.
  intros Himg. unfold transfer, transfer_state, normalise.
  rewrite Himg. reflexivity.
Qed.

Lemma transfer_unknown_parameterization cfg r :
  load_images env (content_img cfg) (style_imgs cfg) (init_img cfg)
    = Some (r_content0 r, r_styles0 r, r_init r) ->
  load_parameterization env (parameterization cfg) = None ->
  transfer env cfg =
    (load_trace cfg r ++ [EvLoadParameterization (parameterization cfg)],
     Raises ConfigurationError).
Proof.
  intros Himg HP. unfold transfer, transfer_state, normalise.
  rewrite Himg. cbn -[init_tensor Z.mul flat_map].
  rewrite HP. cbn -[init_tensor Z.mul flat_map].
  unfold load_trace. same_run.
Qed.

Lemma transfer_unbound_seed cfg r P :
  load_images env (content_img cfg) (style_imgs cfg) (init_img cfg)
    = Some (r_content0 r, r_styles0 r, r_init r) ->
  load_parameterization env (parameterization cfg) = Some P ->
  init_tensor (r_init r) (init_type cfg) (r_content env cfg r) = None ->
  transfer env cfg =
    (load_trace cfg r ++ [EvLoadParameterization (parameterization cfg)],
     Raises (UnboundLocalError "init_tensor")).
Proof.
  intros Himg HP Hseed. unfold transfer, transfer_state, normalise.
  rewrite Himg. cbn -[init_tensor Z.mul flat_map].
  fold (r_styles env cfg r). fold (r_content env cfg r).
  rewrite HP, Hseed. cbn -[Z.mul flat_map].
  unfold load_trace. same_run.
Qed.

Lemma transfer_unknown_perceptor cfg r :
  load_images env (content_img cfg) (style_imgs cfg) (init_img cfg)
    = Some (r_content0 r, r_styles0 r, r_init r) ->
  load_parameterization env (parameterization cfg) = Some (r_P r) ->
  init_tensor (r_init r) (init_type cfg) (r_content env cfg r) = Some (r_seed r) ->
  load_perceptor env (perceptor cfg) = None ->
  transfer env cfg =
    (load_trace cfg r ++ pastiche_trace env cfg r
       ++ [EvLoadPerceptor (perceptor cfg)],
     Raises ConfigurationError).
Proof.
  intros Himg HP Hseed HQ. unfold transfer, transfer_state, normalise.
  rewrite Himg. cbn -[init_tensor Z.mul flat_map].
  fold (r_styles env cfg r). fold (r_content env cfg r).
  rewrite HP, Hseed. cbn -[Z.mul flat_map].
  rewrite HQ. cbn -[Z.mul flat_map].
  unfold load_trace, pastiche_trace. same_run.
Qed.

Lemma transfer_unknown_optimizer cfg r :
  load_images env (content_img cfg) (style_imgs cfg) (init_img cfg)
    = Some (r_content0 r, r_styles0 r, r_init r) ->
  load_parameterization env (parameterization cfg) = Some (r_P r) ->
  init_tensor (r_init r) (init_type cfg) (r_content env cfg r) = Some (r_seed r) ->
  load_perceptor env (perceptor cfg) = Some (r_mkQ r) ->
  load_optimizer env (optimizer cfg) (lr cfg) (optimizer_kwargs cfg)
    (n_iters cfg) (parameters (r_pastiche env cfg r)) = None ->
  transfer env cfg =
    (setup_trace env cfg r ++ freeze_trace env cfg r ++ [EvPbarClose],
     Raises ConfigurationError).
Proof.
  intros Himg HP Hseed HQ Hopt.
  unfold transfer, transfer_state, normalise, optimise.
  rewrite Himg. cbn -[init_tensor Z.mul flat_map].
  fold (r_styles env cfg r). fold (r_content env cfg r).
  rewrite HP, Hseed. cbn -[Z.mul flat_map].
  rewrite HQ. cbn -[Z.mul flat_map].
  fold (r_pastiche env cfg r).
  rewrite Hopt. cbn -[Z.mul flat_map].
  unfold setup_trace, load_trace, pastiche_trace, freeze_trace. same_run.
Qed.

(** *** Counting in the fixed parts of a trace *)

Lemma count_each {A} (p : event (Tensor := Tensor) (Emb := Emb) -> bool)
    (evs : list event) (l : list A) :
  count p evs = O -> count p (flat_map (fun _ => evs) l) = O.
Proof.
  intros H. induction l as [|x l IH]; [reflexivity|].
  cbn [flat_map]. rewrite count_app, H, IH. reflexivity.
Qed.

Lemma seeds_app (t1 t2 : list (event (Tensor := Tensor) (Emb := Emb))) :
  seeds (t1 ++ t2) = seeds t1 ++ seeds t2.
Proof. apply omap_app. Qed.

Lemma seeds_load_trace cfg r : seeds (load_trace cfg r) = [].
Proof.
  unfold load_trace. rewrite !seeds_app.
  assert (seeds (flat_map (fun _ : Tensor => [EvToDevice (Tensor := Tensor) (Emb := Emb);
            EvResample (size cfg * style_scale cfg)]) (r_styles0 r)) = []) as ->.
  { induction (r_styles0 r) as [|x l IH]; [reflexivity|].
    cbn [flat_map]. rewrite seeds_app, IH. reflexivity. }
  reflexivity.
Qed.


Lemma loss_targets_app (t1 t2 : list (event (Tensor := Tensor) (Emb := Emb))) :
  loss_targets (t1 ++ t2) = loss_targets t1 ++ loss_targets t2.
Proof. apply omap_app. Qed.

Lemma loss_targets_loop (te : Emb) (t : list event) :
  Forall (loop_event (Tensor := Tensor) te) t ->
  Forall (fun x => x = te) (loss_targets t).
Proof.
  induction 1 as [|e t He _ IH]; [constructor|].
  destruct e; try contradiction; cbn; try exact IH.
  constructor; [exact He | exact IH].
Qed.

Lemma loss_targets_load_trace cfg r : loss_targets (load_trace cfg r) = [].
Proof.
  unfold load_trace. rewrite !loss_targets_app.
  assert (loss_targets (flat_map (fun _ : Tensor => [EvToDevice (Tensor := Tensor) (Emb := Emb);
            EvResample (size cfg * style_scale cfg)]) (r_styles0 r)) = []) as ->.
  { induction (r_styles0 r) as [|x l IH]; [reflexivity|].
    cbn [flat_map]. rewrite loss_targets_app, IH. reflexivity. }
  reflexivity.
Qed.

(** Nothing of the loop happens while the images are loaded and the
    plugins built. *)
Lemma count_setup_trace cfg r (p : event -> bool) :
  p EvLoadImages = false -> p EvToDevice = false -> p EvMatchHistogram = false ->
  p EvNewPerceptor = false ->
  (forall z, p (EvResample z) = false) ->
  (forall s, p (EvLoadParameterization s) = false) ->
  (forall s, p (EvLoadPerceptor s) = false) ->
  (forall h w s, p (EvNewPastiche h w s) = false) ->
  count p (setup_trace env cfg r) = O.
Proof.
  intros H1 H2 H3 H4 H5 H6 H7 H8.
  unfold setup_trace, load_trace, pastiche_trace.
  rewrite !count_app, !count_cons, !count_nil.
  rewrite count_each
    by (rewrite !count_cons, count_nil, H2, H5; reflexivity).
  now rewrite H1, H2, H3, H4, !H5, H6, H7, H8.
Qed.

Lemma loop_event_not (te : Emb) (e : event (Tensor := Tensor)) :
  loop_event te e -> is_get_target_embeddings e = false.
Proof. destruct e; cbn; intros H; try contradiction; reflexivity. Qed.

(** The counts of a returning run, part by part. *)
Lemma count_run_trace cfg r (p : event -> bool) :
  count p (run_trace env cfg r) =
    (count p (setup_trace env cfg r) + count p (freeze_trace env cfg r)
     + count p (trace (r_loop env cfg r))
     + count p [EvPbarClose; EvDecodeAverage])%nat.
Proof. unfold run_trace. rewrite !count_app. lia. Qed.

#[local] Ltac count_fixed :=
  unfold freeze_trace; rewrite ?count_cons, ?count_nil;
  cbn [is_step is_update_ema is_pbar_update is_zero_grad
       is_get_target_embeddings is_get_loss is_tv_loss
       is_load_images is_tensor_work].

(** The images are loaded once, with tensor work and without a step. *)
Lemma count_load_trace cfg r :
  count is_load_images (load_trace cfg r) = 1%nat /\
  (4 <= count is_tensor_work (load_trace cfg r))%nat /\
  count is_step (load_trace cfg r) = O.
Proof.
  unfold load_trace. rewrite !count_app.
  rewrite !(count_each is_load_images), !(count_each is_step) by reflexivity.
  count_fixed. repeat split; lia.
Qed.


(** A returning run makes as many steps as the loop was given. *)
Lemma count_steps_valid cfg r :
  valid env cfg r ->
  count is_step (trace (transfer env cfg)) = Z.to_nat (r_niter r).
Proof.
  intros Hv. rewrite (transfer_valid cfg r Hv). cbn [trace fst].
  rewrite count_run_trace.
  destruct (r_loop_returns cfg r) as (_ & _ & _ & Hs & _).
  rewrite Hs, count_setup_trace by reflexivity.
  count_fixed. lia.
Qed.

(** *** The claims about [transfer] *)


(** C3. In a run on a valid configuration [get_target_embeddings] is
    called exactly once, no optimizer step and no loss come before that
    call, it is not called again afterwards, and every loss of the run is
    computed against the value that call returned. *)
Theorem target_embeddings_frozen cfg r :
  valid env cfg r ->
  count is_get_target_embeddings (trace (transfer env cfg)) = 1%nat /\
  (exists pre post,
     trace (transfer env cfg) =
       pre ++ EvGetTargetEmbeddings (r_content env cfg r) (r_styles env cfg r)
           :: post /\
     count is_step pre = O /\ count is_get_loss pre = O /\
     count is_get_target_embeddings post = O) /\
  Forall (fun te => te = get_target_embeddings (r_Q cfg r)
                           (r_content env cfg r) (r_styles env cfg r))
    (loss_targets (trace (transfer env cfg))).
Proof.
  intros Hv. rewrite (transfer_valid cfg r Hv). cbn [trace fst].
  destruct (r_loop_returns cfg r) as (_ & _ & Hall & _).
  pose proof (count_absent is_get_target_embeddings _ _
                (loop_event_not (r_target env cfg r)) Hall) as Hnone.
  split; [|split].
  - rewrite count_run_trace, Hnone, count_setup_trace by reflexivity.
    count_fixed. reflexivity.
  - exists (setup_trace env cfg r),
      ([EvGcCollect; EvEmptyCache; EvPbarOpen (n_iters cfg);
        EvLoadOptimizer (optimizer cfg)]
       ++ trace (r_loop env cfg r) ++ [EvPbarClose; EvDecodeAverage]).
    split; [reflexivity|].
    rewrite !count_setup_trace by reflexivity.
    rewrite !count_app, Hnone. count_fixed. repeat split; reflexivity.
  - unfold run_trace, setup_trace, pastiche_trace, freeze_trace.
    rewrite !loss_targets_app, loss_targets_load_trace. cbn [app].
    change (loss_targets [EvLoadParameterization (parameterization cfg);
              EvNewPastiche (height env (r_content env cfg r))
                (width env (r_content env cfg r)) (r_seed r); EvToDevice])
      with (@nil Emb).
    cbn. rewrite app_nil_r.
    exact (loss_targets_loop _ _ Hall).
Qed.

(** C4. Every invocation of the closure updates the EMA once and reports
    progress once: the accumulator after the call is one [ema_step] of the
    accumulator and the latent before it, the bar stands one further, and
    the call makes one [update_ema] and one [pbar.update].  So with an
    optimizer whose step evaluates the closure [N] times, a run of [S]
    steps makes [N * S] EMA updates and as many progress reports, and ends
    with the bar at [N * S]. *)
Theorem closure_updates_every_call cfg r (N : nat) :
  valid env cfg r ->
  (forall o, evaluates N (opt_step (r_opt r) o)) ->
  (forall st,
     exists loss st',
       result (closure env (r_P r) (r_Q cfg r) (r_target env cfg r)
                 (tv_weight cfg) st) = Returns (loss, st') /\
       average (pastiche st')
         = ema_step (r_P r) (average (pastiche st)) (tensor (pastiche st)) /\
       pbar_n st' = S (pbar_n st) /\
       count is_update_ema
         (trace (closure env (r_P r) (r_Q cfg r) (r_target env cfg r)
                   (tv_weight cfg) st)) = 1%nat /\
       count is_pbar_update
         (trace (closure env (r_P r) (r_Q cfg r) (r_target env cfg r)
                   (tv_weight cfg) st)) = 1%nat) /\
  count is_update_ema (trace (transfer env cfg))
    = (N * count is_step (trace (transfer env cfg)))%nat /\
  count is_pbar_update (trace (transfer env cfg))
    = (N * count is_step (trace (transfer env cfg)))%nat /\
  count is_step (trace (transfer env cfg)) = Z.to_nat (r_niter r) /\
  pbar_n (r_final env cfg r) = (N * Z.to_nat (r_niter r))%nat.
Proof.
  intros Hv HN. split.
  { intros st.
    destruct (closure_state env (r_P r) (r_Q cfg r) (r_target env cfg r)
                (tv_weight cfg) st) as (loss & st' & Hres & Hema & _ & Hbar).
    destruct (closure_counts env (r_P r) (r_Q cfg r) (r_target env cfg r)
                (tv_weight cfg) st) as (He & Hp & _).
    exists loss, st'. repeat split; assumption. }
  rewrite (count_steps_valid cfg r Hv).
  rewrite (transfer_valid cfg r Hv). cbn [trace fst].
  destruct (r_loop_returns cfg r) as (o & Hres & _ & _ & He & Hp).
  pose proof (steps_evaluates env (r_P r) (r_Q cfg r) (r_target env cfg r)
                (tv_weight cfg) N (opt_step (r_opt r)) (Z.to_nat (r_niter r))
                HN (opt_state (r_opt r))
                {| pastiche := r_pastiche env cfg r; pbar_n := O |}) as Hz.
  pose proof (steps_pbar env (r_P r) (r_Q cfg r) (r_target env cfg r)
                (tv_weight cfg) (opt_step (r_opt r)) (Z.to_nat (r_niter r))
                (opt_state (r_opt r))
                {| pastiche := r_pastiche env cfg r; pbar_n := O |}
                o (r_final env cfg r) Hres) as Hbar.
  fold (r_loop env cfg r) in Hz, Hbar. rewrite Hz in Hbar. cbn [pbar_n] in Hbar.
  rewrite !count_run_trace, He, Hp, Hz, !count_setup_trace by reflexivity.
  count_fixed. repeat split; lia.
Qed.

(** C5, as the code has it.  On a valid configuration [transfer] returns
    [decode_average()] of the state the loop ended in.  That image differs
    from the raw final candidate [pastiche()] when the parameterization's
    decoding is injective and the EMA accumulator differs from the final
    latent. *)
Theorem transfer_returns_ema_decode cfg r :
  valid env cfg r ->
  result (transfer env cfg)
    = Returns (decode_average (r_P r) (pastiche (r_final env cfg r))) /\
  (Inj (=) (=) (decode (r_P r)) ->
   average (pastiche (r_final env cfg r)) <> tensor (pastiche (r_final env cfg r)) ->
   decode_average (r_P r) (pastiche (r_final env cfg r))
     <> forward (r_P r) (pastiche (r_final env cfg r))).
Proof.
  intros Hv. split.
  - rewrite (transfer_valid cfg r Hv). reflexivity.
  - intros Hinj Hne Heq. apply Hne. apply Hinj. exact Heq.
Qed.

(** The loaded init image is absent exactly when none was given. *)
Lemma load_images_init (c : Src) (ss : list Src) (i : option Src)
    (c' : Tensor) (ss' : list Tensor) (i' : option Tensor) :
  load_images env c ss i = Some (c', ss', i') ->
  (i = None -> i' = None) /\
  (forall s, i = Some s -> load_image env s = i' /\ i' <> None).
Proof.
  unfold load_images. intros H.
  destruct (load_image env c) as [c1|]; [|discriminate]. cbn in H.
  destruct (mapM (load_image env) ss) as [ss1|]; [|discriminate]. cbn in H.
  destruct i as [s|].
  - destruct (load_image env s) as [t|] eqn:Hs; [|discriminate].
    cbn in H. injection H as <- <- <-.
    split; [discriminate|]. intros s' [= <-]. rewrite Hs. split; [reflexivity|discriminate].
  - injection H as <- <- <-. split; [reflexivity|discriminate].
Qed.



(** C7. The loss a closure invocation returns is the perceptor's loss of
    the candidate image against the target embeddings, plus [tv_weight]
    times the total-variation loss of the candidate when [tv_weight > 0];
    for [tv_weight <= 0] nothing is added and [tv_loss] is not called.
    The weight is a rational, so the threshold is 0 itself: a weight such
    as 1/2 adds the term. *)
Theorem closure_total_loss (P : Parameterization) (Q : Perceptor) (te : Emb)
    (tvw : Weight) (st : loop_state (Latent := Latent)) :
  exists loss st',
    result (closure env P Q te tvw st) = Returns (loss, st') /\
    ((0 < tvw)%Q ->
     loss = loss_add env (get_loss Q (candidate P st) te)
              (loss_scale env tvw (tv_loss env (candidate P st))) /\
     count is_tv_loss (trace (closure env P Q te tvw st)) = 1%nat) /\
    ((tvw <= 0)%Q ->
     loss = get_loss Q (candidate P st) te /\
     count is_tv_loss (trace (closure env P Q te tvw st)) = O).
Proof.
  rewrite closure_trace. unfold closure.
  destruct (Qlt_le_dec 0 tvw) as [Hpos|Hle].
  - eexists _, _. split; [reflexivity|]. split.
    + intros _. split; reflexivity.
    + intros Hle. destruct (Qlt_not_le _ _ Hpos Hle).
  - eexists _, _. split; [reflexivity|]. split.
    + intros Hpos. destruct (Qlt_not_le _ _ Hpos Hle).
    + intros _. split; reflexivity.
Qed.

(** C10, as the code has it.  Without an init image and with an
    [init_type] that is neither "content" nor "random", a call whose images
    load and whose parameterization name is known fails with an
    unbound-local error on [init_tensor]: the name has been resolved, the
    constructor has not been called. *)
Theorem unassigned_seed_fails cfg r :
  load_images env (content_img cfg) (style_imgs cfg) (init_img cfg)
    = Some (r_content0 r, r_styles0 r, r_init r) ->
  load_parameterization env (parameterization cfg) = Some (r_P r) ->
  init_img cfg = None ->
  init_type cfg <> "content" -> init_type cfg <> "random" ->
  result (transfer env cfg) = Raises (UnboundLocalError "init_tensor") /\
  seeds (trace (transfer env cfg)) = [] /\
  trace (transfer env cfg) =
    load_trace cfg r ++ [EvLoadParameterization (parameterization cfg)].
Proof.
  intros Himg HP Hi Hc Hr.
  destruct (load_images_init _ _ _ _ _ _ Himg) as (Hnone & _).
  assert (init_tensor (r_init r) (init_type cfg) (r_content env cfg r) = None)
    as Hseed.
  { rewrite (Hnone Hi). unfold init_tensor.
    apply String.eqb_neq in Hc, Hr. rewrite Hc, Hr. reflexivity. }
  rewrite (transfer_unbound_seed cfg r (r_P r) Himg HP Hseed).
  cbn [trace result fst snd]. split; [reflexivity|]. split; [|reflexivity].
  rewrite seeds_app, seeds_load_trace. reflexivity.
Qed.

(** C1, as the code has it.  A name is looked up where it is used, so an
    unknown name fails with a ConfigurationError only there: an unknown
    parameterization after the images were loaded, moved, resampled and
    histogram-matched; an unknown perceptor after the pastiche was built
    too; an unknown optimizer after the target embeddings were computed.
    In all three cases no optimizer step is made. *)
Theorem unknown_name_fails_at_its_loader cfg r :
  load_images env (content_img cfg) (style_imgs cfg) (init_img cfg)
    = Some (r_content0 r, r_styles0 r, r_init r) ->
  (load_parameterization env (parameterization cfg) = None ->
   transfer env cfg =
     (load_trace cfg r ++ [EvLoadParameterization (parameterization cfg)],
      Raises ConfigurationError)) /\
  (load_parameterization env (parameterization cfg) = Some (r_P r) ->
   init_tensor (r_init r) (init_type cfg) (r_content env cfg r) = Some (r_seed r) ->
   load_perceptor env (perceptor cfg) = None ->
   transfer env cfg =
     (load_trace cfg r ++ pastiche_trace env cfg r
        ++ [EvLoadPerceptor (perceptor cfg)],
      Raises ConfigurationError)) /\
  (load_parameterization env (parameterization cfg) = Some (r_P r) ->
   init_tensor (r_init r) (init_type cfg) (r_content env cfg r) = Some (r_seed r) ->
   load_perceptor env (perceptor cfg) = Some (r_mkQ r) ->
   load_optimizer env (optimizer cfg) (lr cfg) (optimizer_kwargs cfg)
     (n_iters cfg) (parameters (r_pastiche env cfg r)) = None ->
   transfer env cfg =
     (setup_trace env cfg r ++ freeze_trace env cfg r ++ [EvPbarClose],
      Raises ConfigurationError)) /\
  (result (transfer env cfg) = Raises ConfigurationError ->
   count is_load_images (trace (transfer env cfg)) = 1%nat /\
   (4 <= count is_tensor_work (trace (transfer env cfg)))%nat /\
   count is_step (trace (transfer env cfg)) = O).
Proof.
  intros Himg.
  split; [exact (transfer_unknown_parameterization cfg r Himg)|].
  split; [exact (transfer_unknown_perceptor cfg r Himg)|].
  split; [exact (transfer_unknown_optimizer cfg r Himg)|].
  destruct (count_load_trace cfg r) as (Hl & Hw & Hs).
  destruct (load_parameterization env (parameterization cfg)) as [P|] eqn:HP.
  2:{ intros _.
      rewrite (transfer_unknown_parameterization cfg r Himg HP).
      cbn [trace fst]. rewrite !count_app, Hl, Hs. count_fixed.
      repeat split; lia. }
  destruct (init_tensor (r_init r) (init_type cfg) (r_content env cfg r))
    as [sd|] eqn:Hseed.
  2:{ rewrite (transfer_unbound_seed cfg r P Himg HP Hseed). discriminate. }
  set (r1 := {| r_content0 := r_content0 r; r_styles0 := r_styles0 r;
                r_init := r_init r; r_seed := sd; r_P := P;
                r_mkQ := r_mkQ r; r_opt := r_opt r; r_niter := r_niter r |}).
  destruct (load_perceptor env (perceptor cfg)) as [mkQ|] eqn:HQ.
  2:{ intros _.
      rewrite (transfer_unknown_perceptor cfg r1 Himg HP Hseed HQ).
      cbn [trace fst]. unfold pastiche_trace.
      change (load_trace cfg r1) with (load_trace cfg r).
      rewrite !count_app, Hl, Hs.
      count_fixed. repeat split; lia. }
  set (r2 := {| r_content0 := r_content0 r; r_styles0 := r_styles0 r;
                r_init := r_init r; r_seed := sd; r_P := P;
                r_mkQ := mkQ; r_opt := r_opt r; r_niter := r_niter r |}).
  destruct (load_optimizer env (optimizer cfg) (lr cfg) (optimizer_kwargs cfg)
              (n_iters cfg) (parameters (r_pastiche env cfg r2)))
    as [[opt niter]|] eqn:Hopt.
  - set (r3 := {| r_content0 := r_content0 r; r_styles0 := r_styles0 r;
                  r_init := r_init r; r_seed := sd; r_P := P;
                  r_mkQ := mkQ; r_opt := opt; r_niter := niter |}).
    assert (valid env cfg r3) as Hv by (repeat split; assumption).
    rewrite (transfer_valid cfg r3 Hv). discriminate.
  - intros _.
    rewrite (transfer_unknown_optimizer cfg r2 Himg HP Hseed HQ Hopt).
    cbn [trace fst]. unfold setup_trace, pastiche_trace.
    change (load_trace cfg r2) with (load_trace cfg r).
    rewrite !count_app, Hl, Hs.
    count_fixed. repeat split; lia.
Qed.

End Transfer.

End TransferFacts.

(** ** The video upscaler *)

Module FrameByFrameFacts.

Import FrameByFrame.

Section Upscale.

Context {Frame Fps Tensor Device : Type}.
Variable env : Env (Frame := Frame) (Fps := Fps) (Tensor := Tensor)
                 (Device := Device).
Implicit Types (fs : gmap string (file (Frame := Frame) (Fps := Fps))).
Implicit Types (vr : video (Frame := Frame) (Fps := Fps)).
Implicit Types (t : list (event (Fps := Fps) (Tensor := Tensor))).

Lemma reads_app t1 t2 : reads (t1 ++ t2) = reads t1 ++ reads t2.
Proof. apply omap_app. Qed.

Lemma writes_app t1 t2 : writes (t1 ++ t2) = writes t1 ++ writes t2.
Proof. apply omap_app. Qed.

Lemma pump_yield (out : Tensor) (u : Upscaler) vr (i : nat) (written : list Tensor) :
  pump env (UpYield out u) vr i written =
    ([EvWrite out] ++ trace (pump env u vr i (written ++ [out])),
     result (pump env u vr i (written ++ [out]))).
Proof. reflexivity. Qed.

Lemma pump_pull (k : option Tensor -> Upscaler) vr (i : nat)
    (written : list Tensor) (f : Frame) :
  frames vr !! i = Some f ->
  pump env (UpPull k) vr i written =
    ([EvReadFrame i] ++ trace (pump env (k (Some (to_tensor env f))) vr (S i) written),
     result (pump env (k (Some (to_tensor env f))) vr (S i) written)).
Proof. intros H. cbn [pump]. rewrite H. reflexivity. Qed.

(** The loop over the upscaler returns what it wrote; it reads the frames
    one by one from where the generator stands, in source order, never one
    twice and never past the end, and opens no reader or writer. *)
Lemma pump_spec (u : Upscaler) vr :
  forall (i : nat) (written : list Tensor),
    (i <= length (frames vr))%nat ->
    exists k : nat,
      result (pump env u vr i written)
        = Returns (written ++ writes (trace (pump env u vr i written))) /\
      reads (trace (pump env u vr i written)) = seq i k /\
      (i + k <= length (frames vr))%nat /\
      count is_writer_open (trace (pump env u vr i written)) = O /\
      count is_video_reader (trace (pump env u vr i written)) = O.
Proof.
  induction u as [|out u IH|k IH]; intros i written Hi.
  - exists O. cbn. rewrite app_nil_r. repeat split; [lia].
  - destruct (IH i (written ++ [out]) Hi) as (n & Hr & Hreads & Hn & Hw & Hv).
    exists n. rewrite pump_yield. cbn [trace result fst snd].
    rewrite writes_app, reads_app, !count_app, Hr, Hreads, Hw, Hv.
    change (writes [EvWrite out]) with [out].
    rewrite <- app_assoc. repeat split; [assumption].
  - destruct (frames vr !! i) as [f|] eqn:Hf.
    + assert (S i <= length (frames vr))%nat as Hi'.
      { apply lookup_lt_Some in Hf. lia. }
      destruct (IH (Some (to_tensor env f)) (S i) written Hi')
        as (n & Hr & Hreads & Hn & Hw & Hv).
      exists (S n). rewrite (pump_pull k vr i written f Hf).
      cbn [trace result fst snd].
      rewrite writes_app, reads_app, !count_app, Hr, Hreads, Hw, Hv.
      repeat split; [lia].
    + cbn [pump]. rewrite Hf. apply (IH None i written Hi).
Qed.

(** C9. For an input that decodes and has a first frame of height [h] and
    width [w], [upscale] opens exactly one writer, on
    [<out_dir>/<stem>_<model_name>.mp4], with output size [(4 * w, 4 * h)]
    and the average frame rate of the source; inside it the frames are read
    on the upscaler's demand in source order (indices 0, 1, ..., k - 1, none
    twice, none skipped), and what the upscaler yields is written in the
    order it is yielded. *)
Theorem upscale_writes_one_video (video_file model_name : string) (dev : Device)
    (out_dir : string) fs vr (f0 : Frame) (h w c : Z) :
  open_video fs video_file = Some vr ->
  frames vr !! O = Some f0 ->
  shape env f0 = (h, w, c) ->
  exists (body : list event) (k : nat),
    trace (upscale env video_file model_name dev out_dir fs) =
      [EvVideoReader video_file; EvGetAvgFps; EvReadFrame 0;
       EvWriterOpen (out_file env out_dir video_file model_name)
         (4 * w, 4 * h) (avg_fps vr)]
      ++ body
      ++ [EvWriterClose;
          EvVideoReader (out_file env out_dir video_file model_name)] /\
    body = trace (pump env (upscale_images env model_name dev) vr O []) /\
    count is_writer_open (trace (upscale env video_file model_name dev out_dir fs))
      = 1%nat /\
    reads body = seq O k /\ (k <= length (frames vr))%nat /\
    result (upscale env video_file model_name dev out_dir fs) =
      Returns
        (encode env (4 * w, 4 * h) (avg_fps vr) (writes body),
         <[out_file env out_dir video_file model_name :=
             Video (encode env (4 * w, 4 * h) (avg_fps vr) (writes body))]> fs).
Proof.
  intros Hopen Hf0 Hshape.
  destruct (pump_spec (upscale_images env model_name dev) vr O [] (Nat.le_0_l _))
    as (k & Hr & Hreads & Hk & Hw & Hv).
  exists (trace (pump env (upscale_images env model_name dev) vr O [])), k.
  assert (upscale env video_file model_name dev out_dir fs =
            ([EvVideoReader video_file; EvGetAvgFps; EvReadFrame 0;
              EvWriterOpen (out_file env out_dir video_file model_name)
                (4 * w, 4 * h) (avg_fps vr)]
             ++ trace (pump env (upscale_images env model_name dev) vr O [])
             ++ [EvWriterClose;
                 EvVideoReader (out_file env out_dir video_file model_name)],
             Returns
               (encode env (4 * w, 4 * h) (avg_fps vr)
                  (writes (trace (pump env (upscale_images env model_name dev) vr O []))),
                <[out_file env out_dir video_file model_name :=
                    Video (encode env (4 * w, 4 * h) (avg_fps vr)
                             (writes (trace (pump env (upscale_images env model_name dev) vr O []))))]> fs)))
    as Hrun.
  { unfold upscale. rewrite Hopen. cbn -[Z.mul pump out_file].
    rewrite Hf0. cbn -[Z.mul pump out_file]. rewrite Hshape.
    unfold with_. rewrite Hr. cbn -[Z.mul pump out_file].
    unfold open_video. rewrite lookup_insert_eq. cbn -[Z.mul pump out_file].
    same_run. }
  rewrite Hrun. cbn [trace result fst snd].
  split; [reflexivity|]. split; [reflexivity|].
  split; [|split; [exact Hreads|split; [lia|reflexivity]]].
  rewrite !count_app, Hw. reflexivity.
Qed.

(** The inputs are handled one after the other. *)
Lemma main_loop_app (args : arguments) (pre post : list string) :
  forall fs,
    main_loop env args (pre ++ post) fs =
      (main_loop env args pre fs ≫= main_loop env args post).
Proof.
  induction pre as [|v pre IH]; intros fs.
  - cbn [app main_loop]. now rewrite ret_bind.
  - cbn [app main_loop]. rewrite bind_assoc. apply emit_bind.
    destruct (exists_ fs (out_file env (out_dir args) v (model_name args))).
    + rewrite bind_assoc. apply emit_bind. apply IH.
    + rewrite bind_assoc.
      destruct (upscale env v (model_name args) (device args) (out_dir args) fs)
        as [t [[res fs']|e]]; [|reflexivity].
      cbn. now rewrite IH.
Qed.

(** C8. When [main] comes to an input whose output path exists, all it
    does for that input is the existence check and the notice: no reader
    and no writer is opened, no frame is read or written, and the disk is
    handed unchanged to the inputs that follow.  An input whose output
    path does not exist is given to [upscale]. *)
Theorem main_skips_existing_output (args : arguments) fs
    (pre post : list string) (v : string) (t1 : list event) fs1 :
  video_files args = pre ++ v :: post ->
  main_loop env args pre fs = (t1, Returns fs1) ->
  (is_Some (fs1 !! out_file env (out_dir args) v (model_name args)) ->
   main env args fs =
     (t1 ++ [EvExists (out_file env (out_dir args) v (model_name args));
             EvPrint (skip_notice env v
                        (out_file env (out_dir args) v (model_name args)))]
         ++ trace (main_loop env args post fs1),
      result (main_loop env args post fs1))) /\
  (fs1 !! out_file env (out_dir args) v (model_name args) = None ->
   main env args fs =
     (t1 ++ [EvExists (out_file env (out_dir args) v (model_name args))]
         ++ trace (upscale env v (model_name args) (device args) (out_dir args) fs1
                     ≫= fun '(_, fs2) => main_loop env args post fs2),
      result (upscale env v (model_name args) (device args) (out_dir args) fs1
                ≫= fun '(_, fs2) => main_loop env args post fs2))).
Proof.
  intros Hfiles Hpre. unfold main.
  rewrite Hfiles, main_loop_app, (bind_split _ _ _ _ Hpre). cbn [main_loop].
  split; intros Hex.
  - unfold exists_. rewrite bool_decide_eq_true_2 by exact Hex.
    reflexivity.
  - unfold exists_. rewrite bool_decide_eq_false_2
      by (rewrite Hex; apply is_Some_None).
    reflexivity.
Qed.

End Upscale.

End FrameByFrameFacts.

(** ** The claims on the test doubles *)

Module Checks.

Import StyleTransfer TransferFacts.

(** C1: with an unknown parameterization name the call has loaded the
    images, moved and resampled the three of them and matched the
    histogram before the name is looked up. *)
Lemma unknown_name_fails_at_its_loader_witness :
  transfer Stubs.env Stubs.unknown_parameterization =
    ([EvLoadImages; EvToDevice; EvResample 512; EvToDevice; EvResample 512;
      EvToDevice; EvResample 512; EvMatchHistogram;
      EvLoadParameterization "bogus"],
     Raises ConfigurationError).
Proof.
  refine (proj1 (unknown_name_fails_at_its_loader Stubs.env
                   Stubs.unknown_parameterization Stubs.run_defaults _) _);
    reflexivity.
Defined.

(** C1 does not hold as stated: the name "bogus" is unknown and the call
    fails with a ConfigurationError, yet the images were loaded and eight
    calls of tensor work made before. *)
Lemma fail_fast_counterexample :
  load_parameterization Stubs.env (parameterization Stubs.unknown_parameterization)
    = None /\
  result (transfer Stubs.env Stubs.unknown_parameterization)
    = Raises ConfigurationError /\
  count is_load_images (trace (transfer Stubs.env Stubs.unknown_parameterization))
    = 1%nat /\
  count is_tensor_work (trace (transfer Stubs.env Stubs.unknown_parameterization))
    <> O.
Proof. repeat split; try reflexivity. vm_compute. discriminate. Qed.


(** C3: one call of [get_target_embeddings], every loss against 53103. *)
Lemma target_embeddings_frozen_witness :
  count is_get_target_embeddings (trace (transfer Stubs.env Stubs.defaults))
    = 1%nat /\
  Forall (fun te => te = 53103)
    (loss_targets (trace (transfer Stubs.env Stubs.defaults))).
Proof.
  assert (valid Stubs.env Stubs.defaults Stubs.run_defaults) as Hv
    by (repeat split; reflexivity).
  split.
  - exact (proj1 (target_embeddings_frozen Stubs.env Stubs.defaults
                    Stubs.run_defaults Hv)).
  - exact (proj2 (proj2 (target_embeddings_frozen Stubs.env Stubs.defaults
                           Stubs.run_defaults Hv))).
Defined.

(** C4: two closure calls in each of the three steps: six EMA updates and
    six progress reports, the bar ends at six, and a call on the seed state
    leaves the accumulator at the mean of 10 and 30. *)
Lemma closure_updates_every_call_witness :
  count is_update_ema (trace (transfer Stubs.env Stubs.defaults)) = 6%nat /\
  count is_pbar_update (trace (transfer Stubs.env Stubs.defaults)) = 6%nat /\
  count is_step (trace (transfer Stubs.env Stubs.defaults)) = 3%nat /\
  pbar_n (r_final Stubs.env Stubs.defaults Stubs.run_defaults) = 6%nat /\
  exists loss st',
    result (closure Stubs.env Stubs.rgb
              (r_Q Stubs.defaults Stubs.run_defaults)
              (r_target Stubs.env Stubs.defaults Stubs.run_defaults)
              (tv_weight Stubs.defaults)
              {| pastiche := {| tensor := 30; grad := None; average := 10 |};
                 pbar_n := 4 |}) = Returns (loss, st') /\
    average (pastiche st') = 20 /\ pbar_n st' = 5%nat.
Proof.
  assert (valid Stubs.env Stubs.defaults Stubs.run_defaults) as Hv
    by (repeat split; reflexivity).
  assert (forall o, evaluates 2 (opt_step (r_opt Stubs.run_defaults) o)) as He
    by (intros o; repeat (constructor; intros)).
  destruct (closure_updates_every_call Stubs.env Stubs.defaults
              Stubs.run_defaults 2 Hv He) as (Hcall & Hema & Hbar & Hsteps & Hend).
  rewrite Hsteps in Hema, Hbar.
  split; [exact Hema|]. split; [exact Hbar|]. split; [exact Hsteps|].
  split; [exact Hend|].
  destruct (Hcall {| pastiche := {| tensor := 30; grad := None; average := 10 |};
                     pbar_n := 4 |}) as (loss & st' & Hres & Havg & Hn & _).
  exists loss, st'. split; [exact Hres|]. split; [exact Havg | exact Hn].
Defined.

(** C5: with the parameterization that decodes a latent as it is, the run
    on [defaults] returns the decoded average, which is not the decoded
    final latent. *)
Lemma transfer_returns_ema_decode_witness :
  result (transfer Stubs.env Stubs.defaults)
    = Returns (decode_average Stubs.rgb
                 (pastiche (r_final Stubs.env Stubs.defaults Stubs.run_defaults))) /\
  decode_average Stubs.rgb
    (pastiche (r_final Stubs.env Stubs.defaults Stubs.run_defaults))
  <> forward Stubs.rgb
       (pastiche (r_final Stubs.env Stubs.defaults Stubs.run_defaults)).
Proof.
  assert (valid Stubs.env Stubs.defaults Stubs.run_defaults) as Hv
    by (repeat split; reflexivity).
  destruct (transfer_returns_ema_decode Stubs.env Stubs.defaults
              Stubs.run_defaults Hv) as (Hres & Hdiff).
  split; [exact Hres|]. apply Hdiff.
  - intros x y H. exact H.
  - vm_compute. discriminate.
Defined.

(** C5 does not hold as stated: after one step on the clamped
    parameterization the EMA accumulator (1553) differs from the final
    latent (54401), and the returned image is the raw final candidate all
    the same, both decoding to 255. *)
Lemma ema_differs_counterexample :
  valid Stubs.env Stubs.saturated Stubs.run_saturated /\
  average (pastiche (r_final Stubs.env Stubs.saturated Stubs.run_saturated))
    <> tensor (pastiche (r_final Stubs.env Stubs.saturated Stubs.run_saturated)) /\
  result (transfer Stubs.env Stubs.saturated)
    = Returns (decode_average Stubs.clamped
                 (pastiche (r_final Stubs.env Stubs.saturated Stubs.run_saturated))) /\
  decode_average Stubs.clamped
    (pastiche (r_final Stubs.env Stubs.saturated Stubs.run_saturated))
  = forward Stubs.clamped
      (pastiche (r_final Stubs.env Stubs.saturated Stubs.run_saturated)).
Proof.
  split; [repeat split; reflexivity|].
  split; [vm_compute; discriminate|].
  split; vm_compute; reflexivity.
Qed.


(** C7: with a weight of 1/2 the total-variation term is added (30 + 15),
    with a weight of 0 it is not and [tv_loss] is not called. *)
Lemma closure_total_loss_witness :
  (exists st',
     result (closure Stubs.env Stubs.rgb (Stubs.vgg 1 50 tt) 0 (1 # 2)
               {| pastiche := {| tensor := 30; grad := None; average := 10 |};
                  pbar_n := O |}) = Returns (45, st')) /\
  count is_tv_loss
    (trace (closure Stubs.env Stubs.rgb (Stubs.vgg 1 50 tt) 0 (1 # 2)
              {| pastiche := {| tensor := 30; grad := None; average := 10 |};
                 pbar_n := O |})) = 1%nat /\
  (exists st',
     result (closure Stubs.env Stubs.rgb (Stubs.vgg 1 50 tt) 0 0%Q
               {| pastiche := {| tensor := 30; grad := None; average := 10 |};
                  pbar_n := O |}) = Returns (30, st')) /\
  count is_tv_loss
    (trace (closure Stubs.env Stubs.rgb (Stubs.vgg 1 50 tt) 0 0%Q
              {| pastiche := {| tensor := 30; grad := None; average := 10 |};
                 pbar_n := O |})) = O.
Proof.
  destruct (closure_total_loss Stubs.env Stubs.rgb (Stubs.vgg 1 50 tt) 0 (1 # 2)
              {| pastiche := {| tensor := 30; grad := None; average := 10 |};
                 pbar_n := O |}) as (l1 & s1 & Hr1 & Hpos & _).
  destruct (Hpos eq_refl) as (Hl1 & Hc1).
  destruct (closure_total_loss Stubs.env Stubs.rgb (Stubs.vgg 1 50 tt) 0 0%Q
              {| pastiche := {| tensor := 30; grad := None; average := 10 |};
                 pbar_n := O |}) as (l0 & s0 & Hr0 & _ & Hle).
  destruct (Hle (Qle_refl 0)) as (Hl0 & Hc0).
  split; [exists s1; rewrite Hr1, Hl1; reflexivity|].
  split; [exact Hc1|].
  split; [exists s0; rewrite Hr0, Hl0; reflexivity | exact Hc0].
Defined.

(** C10: [init_type = "init_img"] without an init image. *)
Lemma unassigned_seed_fails_witness :
  result (transfer Stubs.env Stubs.unassigned)
    = Raises (UnboundLocalError "init_tensor") /\
  seeds (trace (transfer Stubs.env Stubs.unassigned)) = [].
Proof.
  destruct (unassigned_seed_fails Stubs.env Stubs.unassigned Stubs.run_defaults)
    as (Hres & Hseeds & _);
    [reflexivity | reflexivity | reflexivity | discriminate | discriminate |].
  exact (conj Hres Hseeds).
Defined.

(** C10 does not hold as stated: without an init image and with
    [init_type = "init_img"], a call with an unknown parameterization name
    fails in the loader, with a ConfigurationError, before [init_tensor] is
    read. *)
Lemma unassigned_seed_counterexample :
  init_img Stubs.unassigned_unknown = None /\
  init_type Stubs.unassigned_unknown <> "content" /\
  init_type Stubs.unassigned_unknown <> "random" /\
  result (transfer Stubs.env Stubs.unassigned_unknown)
    = Raises ConfigurationError /\
  result (transfer Stubs.env Stubs.unassigned_unknown)
    <> Raises (UnboundLocalError "init_tensor").
Proof.
  split; [reflexivity|]. split; [discriminate|]. split; [discriminate|].
  split; [reflexivity|]. vm_compute. discriminate.
Qed.

End Checks.

Module VideoChecks.

Import FrameByFrame FrameByFrameFacts.

(** C8: the output of the only input is on the disk already. *)
Lemma main_skips_existing_output_witness :
  main VideoStubs.env VideoStubs.args VideoStubs.disk_done =
    ([EvExists "out/a_esrgan.mp4";
      EvPrint "Skipping a, output a_esrgan already exists!"],
     Returns VideoStubs.disk_done).
Proof.
  refine (proj1 (main_skips_existing_output VideoStubs.env VideoStubs.args
                   VideoStubs.disk_done [] [] "clips/a.mp4" []
                   VideoStubs.disk_done eq_refl eq_refl) _).
  vm_compute. eexists. reflexivity.
Defined.

(** C9: a clip of three frames, the first of height 5 and width 6, at 25
    frames per second; the frames are read and written one by one. *)
Lemma upscale_writes_one_video_witness :
  trace (upscale VideoStubs.env "clips/a.mp4" "esrgan" tt "out" VideoStubs.disk) =
    [EvVideoReader "clips/a.mp4"; EvGetAvgFps; EvReadFrame 0;
     EvWriterOpen "out/a_esrgan.mp4" (24, 20) 25;
     EvReadFrame 0; EvWrite 20; EvReadFrame 1; EvWrite 24;
     EvReadFrame 2; EvWrite 28;
     EvWriterClose; EvVideoReader "out/a_esrgan.mp4"] /\
  count is_writer_open
    (trace (upscale VideoStubs.env "clips/a.mp4" "esrgan" tt "out" VideoStubs.disk))
    = 1%nat.
Proof.
  destruct (upscale_writes_one_video VideoStubs.env "clips/a.mp4" "esrgan" tt
              "out" VideoStubs.disk VideoStubs.clip 5 5 6 3
              eq_refl eq_refl eq_refl)
    as (body & k & Htrace & Hbody & Hone & _).
  split; [|exact Hone].
  rewrite Htrace, Hbody. reflexivity.
Defined.

End VideoChecks.

(** ** More on the video upscaler *)

Module FrameByFrameAuxFacts.

Import FrameByFrame FrameByFrameFacts FrameByFrameAux.

#[local] Set Warnings "-clear-no-such-hyp".

Section Aux.

Context {Frame Fps Tensor Device : Type}.
Variable env : Env (Frame := Frame) (Fps := Fps) (Tensor := Tensor)
                 (Device := Device).
Implicit Types (fs : gmap string (file (Frame := Frame) (Fps := Fps))).
Implicit Types (vr : video (Frame := Frame) (Fps := Fps)).
Implicit Types (t : list (event (Fps := Fps) (Tensor := Tensor))).
Implicit Types (args : arguments (Device := Device)).

Lemma run_eta {Ev A} (m : M Ev A) (a : A) :
  result m = Returns a -> m = (trace m, Returns a).
Proof. destruct m as [t r]. cbn. now intros ->. Qed.

Lemma emit_then_raises {Ev A B} (e0 : Ev) (t : list Ev) (e : exn)
    (f : A -> M Ev B) :
  (emit e0 ≫= fun _ => (t, Raises e) ≫= f) = (e0 :: t, Raises e).
Proof. reflexivity. Qed.

Lemma emit_then_returns {Ev A B} (e0 : Ev) (t : list Ev) (a : A)
    (f : A -> M Ev B) :
  (emit e0 ≫= fun _ => (t, Returns a) ≫= f)
    = (e0 :: t ++ trace (f a), result (f a)).
Proof. reflexivity. Qed.

(** *** The three ways [upscale] can go *)

Lemma upscale_missing (v m : string) (dev : Device) (od : string) fs :
  open_video fs v = None ->
  upscale env v m dev od fs = ([EvVideoReader v], Raises InvalidInput).
Proof. intros H. unfold upscale. rewrite H. reflexivity. Qed.

Lemma upscale_empty (v m : string) (dev : Device) (od : string) fs vr :
  open_video fs v = Some vr -> frames vr !! O = None ->
  upscale env v m dev od fs =
    ([EvVideoReader v; EvGetAvgFps; EvReadFrame 0], Raises IndexError).
Proof.
  intros H H0. unfold upscale. rewrite H. cbn -[Z.mul pump out_file].
  rewrite H0. reflexivity.
Qed.

Lemma upscale_run (v m : string) (dev : Device) (od : string) fs vr
    (f0 : Frame) (h w c : Z) :
  open_video fs v = Some vr -> frames vr !! O = Some f0 ->
  shape env f0 = (h, w, c) ->
  upscale env v m dev od fs =
    ([EvVideoReader v; EvGetAvgFps; EvReadFrame 0;
      EvWriterOpen (out_file env od v m) (4 * w, 4 * h) (avg_fps vr)]
     ++ trace (pump env (upscale_images env m dev) vr O [])
     ++ [EvWriterClose; EvVideoReader (out_file env od v m)],
     Returns
       (encode env (4 * w, 4 * h) (avg_fps vr)
          (writes (trace (pump env (upscale_images env m dev) vr O []))),
        <[out_file env od v m :=
            Video (encode env (4 * w, 4 * h) (avg_fps vr)
                     (writes (trace (pump env (upscale_images env m dev) vr O []))))]>
          fs)).
Proof.
  intros Hopen Hf0 Hshape.
  destruct (pump_spec env (upscale_images env m dev) vr O [] (Nat.le_0_l _))
    as (k & Hr & _).
  unfold upscale. rewrite Hopen. cbn -[Z.mul pump out_file].
  rewrite Hf0. cbn -[Z.mul pump out_file]. rewrite Hshape.
  unfold with_. rewrite Hr. cbn -[Z.mul pump out_file].
  unfold open_video. rewrite lookup_insert_eq. cbn -[Z.mul pump out_file].
  f_equal. repeat (cbn [app]; rewrite <- ?app_assoc, ?app_nil_r). reflexivity.
Qed.

(** The loop over the upscaler makes no call but frame reads and writes. *)
Lemma pump_events (u : Upscaler) vr :
  forall (i : nat) (written : list Tensor),
    Forall (fun e => match e with EvReadFrame _ | EvWrite _ => True | _ => False end)
      (trace (pump env u vr i written)).
Proof.
  induction u as [|out u IH|k IH]; intros i written.
  - constructor.
  - rewrite pump_yield. cbn [trace fst app]. constructor; [exact I | apply IH].
  - destruct (frames vr !! i) as [f|] eqn:Hf.
    + rewrite (pump_pull env k vr i written f Hf). cbn [trace fst app].
      constructor; [exact I | apply IH].
    + cbn [pump]. rewrite Hf. apply IH.
Qed.

(** The frames written are those the upscaler yields on the converted
    frames from the generator's position on. *)
Lemma pump_yields (u : Upscaler) vr :
  forall (i : nat) (written : list Tensor),
    writes (trace (pump env u vr i written))
      = yields u (map (to_tensor env) (drop i (frames vr))).
Proof.
  induction u as [|out u IH|k IH]; intros i written.
  - reflexivity.
  - rewrite pump_yield. cbn [trace fst]. rewrite writes_app, IH. reflexivity.
  - destruct (frames vr !! i) as [f|] eqn:Hf.
    + rewrite (pump_pull env k vr i written f Hf). cbn [trace fst].
      rewrite writes_app, IH, (drop_S _ _ _ Hf). reflexivity.
    + cbn [pump]. rewrite Hf, IH.
      rewrite (drop_ge (frames vr) i) by (apply lookup_ge_None; exact Hf).
      reflexivity.
Qed.

(** X2. The video [upscale] writes holds exactly the frames the upscaling
    generator yields when run on the converted source frames in source
    order: reading the frames on demand changes nothing in what is
    written. *)
Theorem upscale_writes_yields (v m : string) (dev : Device) (od : string)
    fs vr (f0 : Frame) (h w c : Z) :
  open_video fs v = Some vr -> frames vr !! O = Some f0 ->
  shape env f0 = (h, w, c) ->
  writes (trace (upscale env v m dev od fs))
    = yields (upscale_images env m dev) (map (to_tensor env) (frames vr)) /\
  result (upscale env v m dev od fs) =
    Returns
      (encode env (4 * w, 4 * h) (avg_fps vr)
         (yields (upscale_images env m dev) (map (to_tensor env) (frames vr))),
       <[out_file env od v m :=
           Video (encode env (4 * w, 4 * h) (avg_fps vr)
                    (yields (upscale_images env m dev)
                       (map (to_tensor env) (frames vr))))]> fs).
Proof.
  intros Hopen Hf0 Hshape.
  rewrite (upscale_run v m dev od fs vr f0 h w c Hopen Hf0 Hshape).
  cbn [trace result fst snd].
  rewrite !writes_app, (pump_yields (upscale_images env m dev) vr O []).
  rewrite drop_0. cbn. rewrite app_nil_r. split; reflexivity.
Qed.

(** The two ways [upscale] can go, as [main] needs them. *)
Lemma upscale_cases (v m : string) (dev : Device) (od : string) fs :
  (exists t e,
     upscale env v m dev od fs = (t, Raises e) /\
     forall p, count (is_writer_open_at p) t = O) \/
  (exists t res,
     upscale env v m dev od fs
       = (t, Returns (res, <[out_file env od v m := Video res]> fs)) /\
     forall p, count (is_writer_open_at p) t
               = if String.eqb p (out_file env od v m) then 1%nat else O).
Proof.
  destruct (open_video fs v) as [vr|] eqn:Hopen.
  2:{ left. eexists _, _. split; [apply (upscale_missing v m dev od fs Hopen)|].
      reflexivity. }
  destruct (frames vr !! O) as [f0|] eqn:Hf0.
  2:{ left. eexists _, _.
      split; [apply (upscale_empty v m dev od fs vr Hopen Hf0)|]. reflexivity. }
  destruct (shape env f0) as [[h w] c] eqn:Hshape.
  right. eexists _, _.
  split; [apply (upscale_run v m dev od fs vr f0 h w c Hopen Hf0 Hshape)|].
  intros p. rewrite !count_app.
  assert (count (is_writer_open_at p)
            (trace (pump env (upscale_images env m dev) vr O [])) = O) as ->.
  { eapply count_absent; [|apply pump_events].
    intros e H. destruct e; try contradiction; reflexivity. }
  rewrite !count_cons, !count_nil. cbn [is_writer_open_at].
  destruct (String.eqb p (out_file env od v m)); reflexivity.
Qed.

Lemma main_loop_cons_skip args (v : string) (rest : list string) fs :
  is_Some (fs !! out_file env (out_dir args) v (model_name args)) ->
  main_loop env args (v :: rest) fs =
    ([EvExists (out_file env (out_dir args) v (model_name args));
      EvPrint (skip_notice env v (out_file env (out_dir args) v (model_name args)))]
     ++ trace (main_loop env args rest fs),
     result (main_loop env args rest fs)).
Proof.
  intros Hex. cbn [main_loop]. unfold exists_.
  rewrite bool_decide_eq_true_2 by exact Hex. reflexivity.
Qed.

Lemma main_loop_cons_upscale args (v : string) (rest : list string) fs :
  fs !! out_file env (out_dir args) v (model_name args) = None ->
  main_loop env args (v :: rest) fs =
    (emit (EvExists (out_file env (out_dir args) v (model_name args)));;
     '(_, fs2) ← upscale env v (model_name args) (device args) (out_dir args) fs;
     main_loop env args rest fs2).
Proof.
  intros Hex. cbn [main_loop]. unfold exists_.
  rewrite bool_decide_eq_false_2 by (rewrite Hex; apply is_Some_None).
  reflexivity.
Qed.

(** With every output there already, [main] checks and prints, no more. *)
Lemma main_loop_skip_all args (todo : list string) fs :
  (forall v, v ∈ todo ->
     is_Some (fs !! out_file env (out_dir args) v (model_name args))) ->
  main_loop env args todo fs = (skip_trace env args todo, Returns fs).
Proof.
  induction todo as [|v rest IH]; intros Hall; [reflexivity|].
  rewrite main_loop_cons_skip by (apply Hall; left).
  rewrite IH by (intros u Hu; apply Hall; right; exact Hu).
  reflexivity.
Qed.

(** What a returning run of the loop leaves on the disk. *)
Lemma main_loop_disk args (todo : list string) :
  forall fs t fs',
    main_loop env args todo fs = (t, Returns fs') ->
    dom fs' = dom fs ∪ list_to_set (outputs env args todo) /\
    (forall p, is_Some (fs !! p) -> fs' !! p = fs !! p).
Proof.
  induction todo as [|v rest IH]; intros fs t fs' Hrun.
  - cbn in Hrun. injection Hrun as <- <-. split; [set_solver | reflexivity].
  - destruct (fs !! out_file env (out_dir args) v (model_name args))
      as [x|] eqn:Hout.
    + rewrite main_loop_cons_skip in Hrun by (rewrite Hout; exists x; reflexivity).
      injection Hrun as _ Hres.
      destruct (IH fs _ fs' (run_eta _ _ Hres)) as (Hdom & Hkeep).
      split; [|exact Hkeep].
      rewrite Hdom. cbn [outputs map list_to_set].
      assert (out_file env (out_dir args) v (model_name args) ∈ dom fs)
        by (apply elem_of_dom; rewrite Hout; exists x; reflexivity).
      set_solver.
    + rewrite (main_loop_cons_upscale args v rest fs Hout) in Hrun.
      destruct (upscale_cases v (model_name args) (device args) (out_dir args) fs)
        as [(t1 & e & Hup & _)|(t1 & res & Hup & _)];
        rewrite Hup in Hrun; [discriminate|].
      cbn in Hrun. injection Hrun as _ Hres.
      destruct (IH _ _ fs' (run_eta _ _ Hres)) as (Hdom & Hkeep).
      split.
      * rewrite Hdom, dom_insert_L. cbn [outputs map list_to_set]. set_solver.
      * intros p Hp.
        assert (p <> out_file env (out_dir args) v (model_name args)) as Hne
          by (intros ->; rewrite Hout in Hp; destruct Hp; discriminate).
        rewrite Hkeep by (rewrite lookup_insert_ne by congruence; exact Hp).
        apply lookup_insert_ne. congruence.
Qed.

(** X4. After a run of [main] that returns, the disk holds the paths it
    held before and the output path of every input, and every file that
    was there before the run is unchanged: [main] deletes and overwrites
    nothing. *)
Theorem main_keeps_existing_files args fs t fs' :
  main env args fs = (t, Returns fs') ->
  dom fs' = dom fs ∪ list_to_set (outputs env args (video_files args)) /\
  (forall p, is_Some (fs !! p) -> fs' !! p = fs !! p).
Proof. apply main_loop_disk. Qed.

(** X5. [main] is idempotent: run again on the disk a returning run left,
    it checks each output path and prints the notice for each input, opens
    no reader and no writer, and leaves the disk as it is. *)
Theorem main_twice_skips_all args fs t fs' :
  main env args fs = (t, Returns fs') ->
  main env args fs' = (skip_trace env args (video_files args), Returns fs').
Proof.
  intros Hrun. destruct (main_loop_disk args _ fs t fs' Hrun) as (Hdom & _).
  apply main_loop_skip_all. intros v Hv.
  apply elem_of_dom. rewrite Hdom.
  apply elem_of_union_r, elem_of_list_to_set.
  unfold outputs. apply list_elem_of_fmap. exists v. split; [reflexivity|exact Hv].
Qed.

Lemma main_loop_writes_once args (todo : list string) :
  forall fs (p : string),
    (count (is_writer_open_at p) (trace (main_loop env args todo fs)) <= 1)%nat /\
    (is_Some (fs !! p) ->
     count (is_writer_open_at p) (trace (main_loop env args todo fs)) = O).
Proof.
  induction todo as [|v rest IH]; intros fs p.
  - cbn. split; [lia | reflexivity].
  - destruct (fs !! out_file env (out_dir args) v (model_name args))
      as [x|] eqn:Hout.
    + rewrite main_loop_cons_skip by (rewrite Hout; exists x; reflexivity).
      cbn [trace fst]. rewrite count_app, !count_cons, count_nil.
      cbn [is_writer_open_at]. destruct (IH fs p) as (Hle & Hzero).
      split; [lia|]. intros Hp. rewrite (Hzero Hp). reflexivity.
    + rewrite (main_loop_cons_upscale args v rest fs Hout).
      destruct (upscale_cases v (model_name args) (device args) (out_dir args) fs)
        as [(t1 & e & Hup & Hcount)|(t1 & res & Hup & Hcount)]; rewrite Hup.
      * rewrite emit_then_raises. cbn [trace fst].
        rewrite count_cons, (Hcount p). cbn [is_writer_open_at].
        split; [lia | reflexivity].
      * rewrite emit_then_returns. cbn [trace fst].
        rewrite count_cons, count_app, (Hcount p).
        cbn [is_writer_open_at].
        destruct (IH (<[out_file env (out_dir args) v (model_name args)
                         := Video res]> fs) p) as (Hle & Hzero).
        destruct (String.eqb p (out_file env (out_dir args) v (model_name args)))
          eqn:Heq.
        -- apply String.eqb_eq in Heq. subst p.
           rewrite Hzero by (rewrite lookup_insert_eq; eexists; reflexivity).
           split; [lia|]. intros Hp. rewrite Hout in Hp.
           destruct Hp; discriminate.
        -- apply String.eqb_neq in Heq.
           split; [lia|]. intros Hp.
           rewrite Hzero by (rewrite lookup_insert_ne by congruence; exact Hp).
           reflexivity.
Qed.

(** X6. In any run of [main], returning or not, a writer is opened at most
    once on any path, and never on a path that was on the disk when the run
    began: two inputs with the same output path are upscaled once. *)
Theorem main_writes_each_output_once args fs (p : string) :
  (count (is_writer_open_at p) (trace (main env args fs)) <= 1)%nat /\
  (is_Some (fs !! p) ->
   count (is_writer_open_at p) (trace (main env args fs)) = O).
Proof. apply main_loop_writes_once. Qed.

(** X7. [main] stops at the first input that does not decode: it fails
    with InvalidInput right after trying to open that input, and the
    inputs after it are neither checked nor upscaled. *)
Theorem main_stops_at_missing_input args fs (pre post : list string)
    (v : string) (t1 : list event) fs1 :
  video_files args = pre ++ v :: post ->
  main_loop env args pre fs = (t1, Returns fs1) ->
  fs1 !! out_file env (out_dir args) v (model_name args) = None ->
  open_video fs1 v = None ->
  main env args fs =
    (t1 ++ [EvExists (out_file env (out_dir args) v (model_name args));
            EvVideoReader v],
     Raises InvalidInput).
Proof.
  intros Hfiles Hpre Hout Hopen. unfold main.
  rewrite Hfiles, main_loop_app, (bind_split _ _ _ _ Hpre).
  rewrite (main_loop_cons_upscale args v post fs1 Hout).
  rewrite (upscale_missing v (model_name args) (device args) (out_dir args)
             fs1 Hopen).
  reflexivity.
Qed.

End Aux.

End FrameByFrameAuxFacts.

(** ** The command line of style transfer *)

Module StyleMainFacts.

Import StyleMain.

#[local] Set Warnings "-clear-no-such-hyp".

Section Main.

Context {Tensor Emb Loss Latent OptSt Value Lr Device : Type}.
Variable env : Env (Tensor := Tensor) (Emb := Emb) (Loss := Loss)
                 (Latent := Latent) (OptSt := OptSt) (Value := Value)
                 (Lr := Lr) (Device := Device).
Implicit Types (kw : list string) (ts : list (string * string * string)).
Implicit Types (d : gmap string Value).
Implicit Types (args : arguments (Lr := Lr) (Device := Device)).

Lemma triples_cons (k t v : string) kw :
  triples (k :: t :: v :: kw) = (k, t, v) :: triples kw.
Proof. reflexivity. Qed.

Lemma triples_short kw : (length kw < 3)%nat -> triples kw = [].
Proof.
  destruct kw as [|a [|b [|c l]]]; cbn; intros H; try reflexivity; lia.
Qed.

Lemma triples_split_bounded (n : nat) :
  forall kw, (length kw <= n)%nat ->
    exists extra, (length extra < 3)%nat /\ kw = flatten (triples kw) ++ extra.
Proof.
  induction n as [|n IH]; intros kw Hn.
  - destruct kw; [|cbn in Hn; lia]. exists []. split; [cbn; lia | reflexivity].
  - destruct kw as [|a [|b [|c l]]].
    + exists []. split; [cbn; lia | reflexivity].
    + exists [a]. split; [cbn; lia | reflexivity].
    + exists [a; b]. split; [cbn; lia | reflexivity].
    + destruct (IH l) as (extra & Hlen & Heq); [cbn in Hn; lia|].
      exists extra. split; [exact Hlen|].
      rewrite triples_cons. cbn [flatten flat_map app].
      fold (flatten (triples l)). rewrite <- Heq. reflexivity.
Qed.

(** X8. [zip(kw[::3], kw[1::3], kw[2::3])] cuts the list into its
    consecutive triples: a list of triples written flat, followed by fewer
    than three more words, is read back as those triples, the words left
    over being dropped; and every list is of that form. *)
Theorem triples_round_trip :
  (forall ts (extra : list string),
     (length extra < 3)%nat -> triples (flatten ts ++ extra) = ts) /\
  (forall kw, exists extra,
     (length extra < 3)%nat /\ kw = flatten (triples kw) ++ extra) /\
  (forall kw, length (triples kw) = (length kw / 3)%nat).
Proof.
  assert (forall ts (extra : list string),
            (length extra < 3)%nat -> triples (flatten ts ++ extra) = ts) as Hback.
  { induction ts as [|[[k t] v] ts IH]; intros extra Hlen.
    - apply triples_short. exact Hlen.
    - cbn [flatten flat_map app]. fold (flatten ts).
      rewrite triples_cons, (IH extra Hlen). reflexivity. }
  assert (forall ts, length (flatten ts) = (3 * length ts)%nat) as Hflat.
  { induction ts as [|[[k t] v] ts IH]; [reflexivity|].
    cbn [flatten flat_map]. fold (flatten ts). rewrite length_app, IH.
    cbn [length]. lia. }
  split; [exact Hback|]. split.
  - intros kw. exact (triples_split_bounded (length kw) kw (Nat.le_refl _)).
  - intros kw.
    destruct (triples_split_bounded (length kw) kw (Nat.le_refl _))
      as (extra & Hlen & Heq).
    rewrite Heq at 2. rewrite length_app, Hflat.
    apply Nat.div_unique with (r := length extra); lia.
Qed.

(** The guard [len(kw) > 0] changes nothing. *)
Lemma decode_kwargs_build kw : decode_kwargs env kw = build env (triples kw) ∅.
Proof. destruct kw; reflexivity. Qed.

Lemma build_spec ts :
  forall d0 d,
    build env ts d0 = Returns d ->
    (forall k, k ∉ map (fun x => x.1.1) ts -> d !! k = d0 !! k) /\
    (forall ts1 k t v ts2,
       ts = ts1 ++ (k, t, v) :: ts2 ->
       k ∉ map (fun x => x.1.1) ts2 ->
       exists make x,
         eval_type env t = Returns make /\ make v = Returns x /\
         d !! k = Some x).
Proof.
  induction ts as [|[[k0 t0] v0] ts IH]; intros d0 d Hb.
  - cbn in Hb. injection Hb as <-. split; [reflexivity|].
    intros [|? ?] ? ? ? ? H; discriminate.
  - cbn [build] in Hb.
    destruct (eval_type env t0) as [make|e] eqn:Ht; [|discriminate].
    destruct (make v0) as [x|e] eqn:Hv; [|discriminate].
    destruct (IH _ _ Hb) as (Hother & Hlast).
    split.
    + intros k Hk. cbn [map] in Hk. apply not_elem_of_cons in Hk as (Hne & Hk).
      rewrite (Hother k Hk). apply lookup_insert_ne. cbn in Hne. congruence.
    + intros ts1 k t v ts2 Heq Hk.
      destruct ts1 as [|y ts1]; cbn [app] in Heq.
      * simplify_eq.
        exists make, x. split; [exact Ht|]. split; [exact Hv|].
        rewrite (Hother _ Hk). apply lookup_insert_eq.
      * simplify_eq. exact (Hlast ts1 k t v ts2 eq_refl Hk).
Qed.

(** X9. When the keyword arguments decode, a name is in the dict exactly
    when it is the first word of a triple, with the value of the last
    triple of that name; a name that is in no triple is missing. *)
Theorem decode_kwargs_last_wins kw d :
  decode_kwargs env kw = Returns d ->
  (forall k, k ∉ map (fun x => x.1.1) (triples kw) -> d !! k = None) /\
  (forall ts1 k t v ts2,
     triples kw = ts1 ++ (k, t, v) :: ts2 ->
     k ∉ map (fun x => x.1.1) ts2 ->
     exists make x,
       eval_type env t = Returns make /\ make v = Returns x /\
       d !! k = Some x).
Proof.
  rewrite decode_kwargs_build. intros Hb.
  destruct (build_spec _ _ _ Hb) as (Hother & Hlast).
  split; [|exact Hlast].
  intros k Hk. rewrite (Hother k Hk). apply lookup_empty.
Qed.

Lemma build_app_fails ts1 :
  forall d0 k t v ts2 (e : exn),
    (forall k1 t1 v1, (k1, t1, v1) ∈ ts1 ->
       exists make x, eval_type env t1 = Returns make /\ make v1 = Returns x) ->
    (eval_type env t = Raises e \/
     exists make, eval_type env t = Returns make /\ make v = Raises e) ->
    build env (ts1 ++ (k, t, v) :: ts2) d0 = Raises e.
Proof.
  induction ts1 as [|[[k1 t1] v1] ts1 IH]; intros d0 k t v ts2 e Hok Hbad.
  - cbn [app build]. destruct Hbad as [->|(make & -> & ->)]; reflexivity.
  - cbn [app build].
    destruct (Hok k1 t1 v1 (list_elem_of_here _ _)) as (make & x & -> & ->).
    apply IH; [|exact Hbad].
    intros k2 t2 v2 Hin. apply (Hok k2 t2 v2). right. exact Hin.
Qed.

(** X10. The first triple whose type name does not evaluate, or whose
    literal its type refuses, ends the decoding with that exception,
    whatever comes after it. *)
Theorem decode_kwargs_first_error kw ts1 (k t v : string) ts2 (e : exn) :
  triples kw = ts1 ++ (k, t, v) :: ts2 ->
  (forall k1 t1 v1, (k1, t1, v1) ∈ ts1 ->
     exists make x, eval_type env t1 = Returns make /\ make v1 = Returns x) ->
  (eval_type env t = Raises e \/
   exists make, eval_type env t = Returns make /\ make v = Raises e) ->
  decode_kwargs env kw = Raises e.
Proof.
  intros Heq Hok Hbad. rewrite decode_kwargs_build, Heq.
  apply build_app_fails; assumption.
Qed.

(** A decoding that raises ends [main] at once: [transfer] is not called. *)
Lemma main_decoding_fails args (e : exn) :
  (decode_kwargs env (perceptor_kwargs args) = Raises e \/
   exists pk, decode_kwargs env (perceptor_kwargs args) = Returns pk /\
              decode_kwargs env (optimizer_kwargs args) = Raises e) ->
  main env args = ([], Raises e).
Proof.
  unfold main. intros [H|(pk & Hp & Ho)].
  - rewrite H. reflexivity.
  - rewrite Hp, Ho. reflexivity.
Qed.

Lemma count_save_transfer (t : list StyleTransfer.event) :
  count is_save (map (EvTransfer (Tensor := Tensor) (Emb := Emb)) t) = O.
Proof.
  induction t as [|x t IH]; [reflexivity|].
  cbn [map]. rewrite count_cons, IH. reflexivity.
Qed.

Lemma of_outcome_returns {A B} (a : A) (f : A -> M event B) :
  (of_outcome (Tensor := Tensor) (Emb := Emb) (Returns a) ≫= f) = f a.
Proof. exact (ret_bind a f). Qed.

Lemma main_decoded args (pk ok : gmap string Value) :
  decode_kwargs env (perceptor_kwargs args) = Returns pk ->
  decode_kwargs env (optimizer_kwargs args) = Returns ok ->
  main env args =
    (of_transfer (StyleTransfer.transfer (transfer_env env) (to_config args pk ok))
       ≫= fun img => emit (EvSave (output_path env args) img)).
Proof.
  intros Hp Ho. unfold main.
  rewrite Hp, of_outcome_returns, Ho, of_outcome_returns. reflexivity.
Qed.

(** X12. [main] saves an image only as its last call, once, and only when
    [transfer] has returned: the image saved is the one [transfer]
    returned, under the name made of the stems of the content and style
    paths; a run of [main] that fails has saved nothing. *)
Theorem main_saves_last_or_never args :
  (result (main env args) = Returns tt ->
   exists pk ok img,
     decode_kwargs env (perceptor_kwargs args) = Returns pk /\
     decode_kwargs env (optimizer_kwargs args) = Returns ok /\
     result (StyleTransfer.transfer (transfer_env env) (to_config args pk ok))
       = Returns img /\
     trace (main env args) =
       map EvTransfer
         (trace (StyleTransfer.transfer (transfer_env env) (to_config args pk ok)))
       ++ [EvSave (output_path env args) img] /\
     count is_save (trace (main env args)) = 1%nat) /\
  (forall e, result (main env args) = Raises e ->
     count is_save (trace (main env args)) = O).
Proof.
  destruct (decode_kwargs env (perceptor_kwargs args)) as [pk|e1] eqn:Hp.
  2:{ rewrite (main_decoding_fails args e1 (or_introl Hp)).
      split; [discriminate | reflexivity]. }
  destruct (decode_kwargs env (optimizer_kwargs args)) as [ok|e2] eqn:Ho.
  2:{ rewrite (main_decoding_fails args e2
                 (or_intror (ex_intro _ pk (conj Hp Ho)))).
      split; [discriminate | reflexivity]. }
  rewrite (main_decoded args pk ok Hp Ho).
  destruct (StyleTransfer.transfer (transfer_env env) (to_config args pk ok))
    as [t [img|e3]] eqn:Ht.
  - split; [|discriminate].
    intros _. exists pk, ok, img. rewrite Ht.
    split; [reflexivity|]. split; [reflexivity|]. split; [reflexivity|].
    split; [reflexivity|].
    cbn [of_transfer trace result fst snd].
    change (count is_save (map EvTransfer t ++ [EvSave (output_path env args) img])
            = 1%nat).
    rewrite count_app, count_save_transfer. reflexivity.
  - split; [discriminate|]. intros e _.
    change (count is_save (map (EvTransfer (Tensor := Tensor) (Emb := Emb)) t) = O).
    apply count_save_transfer.
Qed.

End Main.

End StyleMainFacts.

(** ** More on [transfer] *)

Module TransferAuxFacts.

Import StyleTransfer LoopFacts TransferFacts StyleTransferAux.

Section Aux.

Context {Src Tensor Emb Loss Latent OptSt Kwargs Lr Device : Type}.
Variable env : Env (Src := Src) (Tensor := Tensor) (Emb := Emb) (Loss := Loss)
                 (Latent := Latent) (OptSt := OptSt) (Kwargs := Kwargs)
                 (Lr := Lr) (Device := Device).
Implicit Types (cfg : config (Src := Src) (Kwargs := Kwargs) (Lr := Lr) (Device := Device)).
Implicit Types (r : run (Tensor := Tensor) (Emb := Emb) (Loss := Loss)
                        (Latent := Latent) (OptSt := OptSt) (Kwargs := Kwargs)).

(** X13. With an effective iteration count of zero or less the loop body
    never runs: no step is made, the closure is never evaluated, the EMA is
    never updated, and the image returned is the decoded average of the
    parameterization as its constructor left it. *)
Theorem no_iterations_returns_initial_average cfg r :
  valid env cfg r ->
  r_niter r <= 0 ->
  transfer env cfg =
    (setup_trace env cfg r ++ freeze_trace env cfg r
       ++ [EvPbarClose; EvDecodeAverage],
     Returns (decode_average (r_P r) (r_pastiche env cfg r))) /\
  count is_step (trace (transfer env cfg)) = O /\
  count is_update_ema (trace (transfer env cfg)) = O.
Proof.
  intros Hv Hn.
  assert (transfer env cfg =
            (setup_trace env cfg r ++ freeze_trace env cfg r
               ++ [EvPbarClose; EvDecodeAverage],
             Returns (decode_average (r_P r) (r_pastiche env cfg r)))) as Hrun.
  { rewrite (transfer_valid env cfg r Hv).
    unfold run_trace, r_final, r_loop. rewrite (Z2Nat.nonpos _ Hn).
    reflexivity. }
  split; [exact Hrun|]. rewrite Hrun. cbn [trace fst].
  rewrite !count_app, !count_setup_trace by reflexivity.
  split; reflexivity.
Qed.

Lemma load_images_none cfg :
  load_images env (content_img cfg) (style_imgs cfg) (init_img cfg) = None <->
  exists s, s ∈ sources cfg /\ load_image env s = None.
Proof.
  unfold load_images, sources. split.
  - intros H.
    destruct (load_image env (content_img cfg)) as [c|] eqn:Hc.
    2:{ exists (content_img cfg). split; [left | exact Hc]. }
    cbn in H.
    destruct (mapM (load_image env) (style_imgs cfg)) as [ss|] eqn:Hss.
    2:{ apply mapM_None_1, Exists_exists in Hss as (s & Hin & Hs).
        exists s. split; [|exact Hs]. right. apply elem_of_app. left. exact Hin. }
    cbn in H. destruct (init_img cfg) as [i|]; [|discriminate].
    destruct (load_image env i) as [t|] eqn:Hi; [discriminate|].
    exists i. split; [|exact Hi]. right. apply elem_of_app. right.
    cbn. left.
  - intros (s & Hin & Hs).
    apply elem_of_cons in Hin as [->|Hin]; [rewrite Hs; reflexivity|].
    destruct (load_image env (content_img cfg)) as [c|]; [|reflexivity]. cbn.
    apply elem_of_app in Hin as [Hin|Hin].
    + rewrite (mapM_None_2 (load_image env) (style_imgs cfg))
        by (apply Exists_exists; exists s; split; assumption).
      reflexivity.
    + destruct (mapM (load_image env) (style_imgs cfg)); [|reflexivity]. cbn.
      destruct (init_img cfg) as [i|]; cbn in Hin.
      * apply list_elem_of_singleton in Hin as ->. rewrite Hs. reflexivity.
      * apply elem_of_nil in Hin. contradiction.
Qed.

(** Once the images are loaded the content image is moved to the device,
    however the call goes on. *)
Lemma transfer_moves_loaded_content cfg (c0 : Tensor) (ss0 : list Tensor)
    (i0 : option Tensor) :
  load_images env (content_img cfg) (style_imgs cfg) (init_img cfg)
    = Some (c0, ss0, i0) ->
  exists t o, transfer env cfg = (EvLoadImages :: EvToDevice :: t, o).
Proof.
  intros Himg. unfold transfer, transfer_state, normalise, optimise.
  rewrite Himg. cbn -[init_tensor steps Z.mul flat_map].
  destruct (load_parameterization env (parameterization cfg)) as [P|];
    cbn -[init_tensor steps Z.mul flat_map]; [|eexists _, _; reflexivity].
  destruct (init_tensor _ _ _) as [sd|];
    cbn -[steps Z.mul flat_map]; [|eexists _, _; reflexivity].
  destruct (load_perceptor env (perceptor cfg)) as [mkQ|];
    cbn -[steps Z.mul flat_map]; [|eexists _, _; reflexivity].
  destruct (load_optimizer _ _ _ _ _ _) as [[opt niter]|];
    cbn -[steps Z.mul flat_map]; [|eexists _, _; reflexivity].
  destruct (steps _ _ _ _ _ _ _ _ _) as [t [[o st]|e]];
    cbn -[steps Z.mul flat_map]; eexists _, _; reflexivity.
Qed.

(** X14. [transfer] fails with InvalidInput exactly when one of its sources
    (the content image, a style image or the init image) does not load, and
    then it has called [load_images] and nothing else: no tensor is moved
    or resampled and no plugin is looked up. *)
Theorem unloadable_source_fails_first cfg :
  (exists s, s ∈ sources cfg /\ load_image env s = None) <->
  transfer env cfg = ([EvLoadImages], Raises InvalidInput).
Proof.
  rewrite <- load_images_none. split.
  - apply transfer_invalid_input.
  - intros H.
    destruct (load_images env (content_img cfg) (style_imgs cfg) (init_img cfg))
      as [[[c0 ss0] i0]|] eqn:Himg; [|reflexivity].
    destruct (transfer_moves_loaded_content cfg c0 ss0 i0 Himg) as (t & o & Hrun).
    rewrite Hrun in H. discriminate.
Qed.

#[local] Ltac count_all :=
  repeat (rewrite ?count_cons, ?count_app, ?count_nil;
          rewrite ?(count_each is_pbar_open), ?(count_each is_pbar_close)
            by reflexivity);
  cbn [is_pbar_open is_pbar_close].

Lemma loop_event_no_bar (te : Emb) (e : event (Tensor := Tensor)) :
  loop_event te e -> is_pbar_open e = false /\ is_pbar_close e = false.
Proof. destruct e; cbn; intros H; try contradiction; split; reflexivity. Qed.

(** X15. In every call of [transfer] the progress bar is closed as often
    as it is opened, at most once: it is opened only after the target
    embeddings are there, and it is closed also when [load_optimizer]
    fails inside the block. *)
Theorem progress_bar_is_closed cfg :
  count is_pbar_open (trace (transfer env cfg))
    = count is_pbar_close (trace (transfer env cfg)) /\
  (count is_pbar_open (trace (transfer env cfg)) <= 1)%nat.
Proof.
  destruct (load_images env (content_img cfg) (style_imgs cfg) (init_img cfg))
    as [[[c0 ss0] i0]|] eqn:Himg.
  2:{ rewrite (transfer_invalid_input env cfg Himg). cbn [trace fst]. count_all.
      split; [reflexivity|lia]. }
  destruct (load_parameterization env (parameterization cfg)) as [P|] eqn:HP.
  2:{ unfold transfer, transfer_state, normalise. rewrite Himg.
      cbn -[init_tensor Z.mul flat_map count]. rewrite HP.
      cbn -[init_tensor Z.mul flat_map count]. count_all. split; [reflexivity|lia]. }
  destruct (init_tensor i0 (init_type cfg)
              (match_histogram env
                 (resample env (to_device env (device cfg) c0) (size cfg))
                 (map (fun im => resample env (to_device env (device cfg) im)
                                   (size cfg * style_scale cfg)) ss0)
                 (match_hist cfg))) as [sd|] eqn:Hseed.
  2:{ unfold transfer, transfer_state, normalise. rewrite Himg.
      cbn -[init_tensor Z.mul flat_map count]. rewrite HP, Hseed.
      cbn -[Z.mul flat_map count]. count_all. split; [reflexivity|lia]. }
  destruct (load_perceptor env (perceptor cfg)) as [mkQ|] eqn:HQ.
  2:{ unfold transfer, transfer_state, normalise. rewrite Himg.
      cbn -[init_tensor Z.mul flat_map count]. rewrite HP, Hseed.
      cbn -[Z.mul flat_map count]. rewrite HQ.
      cbn -[Z.mul flat_map count]. count_all. split; [reflexivity|lia]. }
  destruct (load_optimizer env (optimizer cfg) (lr cfg) (optimizer_kwargs cfg)
              (n_iters cfg)
              (parameters
                 (p_new P
                    (height env
                       (match_histogram env
                          (resample env (to_device env (device cfg) c0) (size cfg))
                          (map (fun im => resample env (to_device env (device cfg) im)
                                            (size cfg * style_scale cfg)) ss0)
                          (match_hist cfg)))
                    (width env
                       (match_histogram env
                          (resample env (to_device env (device cfg) c0) (size cfg))
                          (map (fun im => resample env (to_device env (device cfg) im)
                                            (size cfg * style_scale cfg)) ss0)
                          (match_hist cfg)))
                    sd)))
    as [[opt niter]|] eqn:Hopt.
  - set (r := {| r_content0 := c0; r_styles0 := ss0; r_init := i0; r_seed := sd;
                 r_P := P; r_mkQ := mkQ; r_opt := opt; r_niter := niter |}).
    assert (valid env cfg r) as Hv by (repeat split; assumption).
    rewrite (transfer_valid env cfg r Hv). cbn [trace fst].
    destruct (r_loop_returns env cfg r) as (_ & _ & Hall & _).
    rewrite !count_run_trace, !count_setup_trace by reflexivity.
    rewrite (count_absent is_pbar_open _ _
               (fun e H => proj1 (loop_event_no_bar _ e H)) Hall).
    rewrite (count_absent is_pbar_close _ _
               (fun e H => proj2 (loop_event_no_bar _ e H)) Hall).
    unfold freeze_trace. count_all. split; [reflexivity|lia].
  - unfold transfer, transfer_state, normalise, optimise. rewrite Himg.
    cbn -[init_tensor Z.mul flat_map count]. rewrite HP, Hseed.
    cbn -[Z.mul flat_map count]. rewrite HQ.
    cbn -[Z.mul flat_map count]. rewrite Hopt.
    cbn -[Z.mul flat_map count]. count_all. split; [reflexivity|lia].
Qed.

End Aux.

End TransferAuxFacts.

(** ** The further properties on the test doubles *)

Module MoreChecks.

Import FrameByFrame FrameByFrameAux FrameByFrameAuxFacts.

(** X2: the clip of three frames, each yielded four times as large. *)
Lemma upscale_writes_yields_witness :
  writes (trace (upscale VideoStubs.env "clips/a.mp4" "esrgan" tt "out" VideoStubs.disk))
    = [20; 24; 28].
Proof.
  exact (proj1 (upscale_writes_yields VideoStubs.env "clips/a.mp4" "esrgan" tt
                  "out" VideoStubs.disk VideoStubs.clip 5 5 6 3
                  eq_refl eq_refl eq_refl)).
Defined.

(** X4: a run on the disk with the clip adds the output and keeps the clip. *)
Lemma main_keeps_existing_files_witness :
  dom MoreStubs.disk_after
    = dom VideoStubs.disk
      ∪ list_to_set (outputs VideoStubs.env VideoStubs.args
                       (video_files VideoStubs.args)) /\
  MoreStubs.disk_after !! "clips/a.mp4" = VideoStubs.disk !! "clips/a.mp4".
Proof.
  destruct (main_keeps_existing_files VideoStubs.env VideoStubs.args
              VideoStubs.disk
              (trace (main VideoStubs.env VideoStubs.args VideoStubs.disk))
              MoreStubs.disk_after) as (Hdom & Hkeep).
  - apply run_eta. vm_compute. reflexivity.
  - split; [exact Hdom|]. apply Hkeep. vm_compute. eexists. reflexivity.
Defined.

(** X5: the second run on that disk. *)
Lemma main_twice_skips_all_witness :
  main VideoStubs.env VideoStubs.args MoreStubs.disk_after =
    ([EvExists "out/a_esrgan.mp4";
      EvPrint "Skipping a, output a_esrgan already exists!"],
     Returns MoreStubs.disk_after).
Proof.
  refine (main_twice_skips_all VideoStubs.env VideoStubs.args VideoStubs.disk
            (trace (main VideoStubs.env VideoStubs.args VideoStubs.disk))
            MoreStubs.disk_after _).
  apply run_eta. vm_compute. reflexivity.
Defined.

(** X7: the first input is missing, the clip after it is not touched. *)
Lemma main_stops_at_missing_input_witness :
  main VideoStubs.env MoreStubs.args_missing VideoStubs.disk =
    ([EvExists "out/none_esrgan.mp4"; EvVideoReader "clips/none.mp4"],
     Raises InvalidInput).
Proof.
  exact (main_stops_at_missing_input VideoStubs.env MoreStubs.args_missing
           VideoStubs.disk [] ["clips/a.mp4"] "clips/none.mp4" []
           VideoStubs.disk eq_refl eq_refl eq_refl eq_refl).
Defined.

End MoreChecks.

Module MainChecks.

Import StyleMain StyleMainFacts.

(** X9: the name [n] is given twice, the later value stands; [m] is in no
    triple. *)
Lemma decode_kwargs_last_wins_witness :
  exists d,
    decode_kwargs MoreStubs.main_env ["n"; "int"; "1"; "k"; "str"; "20"; "n"; "int"; "2"]
      = Returns d /\
    d !! "n" = Some (MoreStubs.VInt 2) /\ d !! "m" = None.
Proof.
  destruct (decode_kwargs MoreStubs.main_env
              ["n"; "int"; "1"; "k"; "str"; "20"; "n"; "int"; "2"])
    as [d|e] eqn:Hd; [|vm_compute in Hd; discriminate].
  exists d. split; [reflexivity|].
  destruct (decode_kwargs_last_wins MoreStubs.main_env _ d Hd) as (Hnone & Hlast).
  split.
  - destruct (Hlast [("n", "int", "1"); ("k", "str", "20")] "n" "int" "2" []
                eq_refl) as (make & x & Hmake & Hx & Hlook).
    + cbn. apply not_elem_of_nil.
    + vm_compute in Hmake. injection Hmake as <-.
      vm_compute in Hx. injection Hx as <-. exact Hlook.
  - apply Hnone. cbn. intros H.
    repeat (apply elem_of_cons in H as [H|H]; [discriminate|]).
    apply elem_of_nil in H. exact H.
Defined.

(** X10: the second triple names a type that is not defined; the third,
    whose literal [int] would refuse, is not reached. *)
Lemma decode_kwargs_first_error_witness :
  decode_kwargs MoreStubs.main_env
    ["n"; "int"; "1"; "k"; "integer"; "20"; "n"; "int"; "x"]
    = Raises ConfigurationError.
Proof.
  refine (decode_kwargs_first_error MoreStubs.main_env
            ["n"; "int"; "1"; "k"; "integer"; "20"; "n"; "int"; "x"]
            [("n", "int", "1")] "k" "integer" "20" [("n", "int", "x")]
            ConfigurationError eq_refl _ (or_introl eq_refl)).
  intros k1 t1 v1 Hin. apply list_elem_of_singleton in Hin.
  injection Hin as -> -> ->.
  exists MoreStubs.int_of, (MoreStubs.VInt 1). split; reflexivity.
Defined.

End MainChecks.

Module TransferAuxChecks.

Import StyleTransfer TransferAuxFacts.

(** X13: no iteration requested, the seed comes back decoded. *)
Lemma no_iterations_returns_initial_average_witness :
  result (transfer Stubs.env MoreStubs.idle) = Returns 1553 /\
  count is_update_ema (trace (transfer Stubs.env MoreStubs.idle)) = O.
Proof.
  destruct (no_iterations_returns_initial_average Stubs.env MoreStubs.idle
              MoreStubs.run_idle) as (Hrun & _ & Hema).
  - repeat split; reflexivity.
  - vm_compute. discriminate.
  - split; [rewrite Hrun; reflexivity | exact Hema].
Defined.

End TransferAuxChecks.
